(** * Keypoint pipeline of [cv_and/and_lab_5.py]

    A shallow embedding of the detect / filter / orient / describe pipeline
    (Gaussian smoothing by 2D convolution, FAST candidates, Harris ranking,
    centroid orientation and BRIEF descriptors) and the properties of it
    that the specification states.

    Conventions.  NumPy arrays are lists of rows.  Integer arrays carry
    mathematical integers ([Z]) together with their dtype; [float64] values
    are idealised as real numbers ([R]), so rounding error, overflow to
    infinity and underflow to zero of IEEE arithmetic are outside the
    model.  Python exceptions are [None]. *)

From Stdlib Require Import ZArith List Bool Lia Reals Lra Permutation Sorted.
Import ListNotations.

Set Implicit Arguments.

(* ================================================================== *)
(** * NumPy primitives *)
(* ================================================================== *)

Module Np.

Definition grid (A : Type) := list (list A).

(** [a.shape] of a 2D array held as a list of rows. *)
Definition height {A} (g : grid A) : nat := length g.
Definition width {A} (g : grid A) : nat := length (hd [] g).

(** [a[i, j]] for indices known to be in range. *)
Definition cell {A} (d : A) (g : grid A) (i j : nat) : A :=
  nth j (nth i g []) d.

Definition rectangular {A} (g : grid A) (h w : nat) : Prop :=
  length g = h /\ Forall (fun row => length row = w) g.

Definition const_grid {A} (h w : nat) (c : A) : grid A :=
  repeat (repeat c w) h.

(** [range(lo, hi)], and [np.arange(lo, hi)] on integers. *)
Definition py_range (lo hi : Z) : list Z :=
  map (fun k => (lo + Z.of_nat k)%Z) (seq 0 (Z.to_nat (hi - lo))).

(** [np.sum] of a 1D and of a 2D real array. *)
Definition rsum (l : list R) : R := fold_right Rplus 0%R l.
Definition grid_sum (g : grid R) : R := rsum (map rsum g).

(** ** Integer dtypes and the C cast from [float64] *)

Inductive int_dtype := UInt8 | Int32 | Int64.

Definition wrap (dt : int_dtype) (z : Z) : Z :=
  match dt with
  | UInt8 => z mod 256
  | Int32 => (z + 2 ^ 31) mod 2 ^ 32 - 2 ^ 31
  | Int64 => (z + 2 ^ 63) mod 2 ^ 64 - 2 ^ 63
  end%Z.

Definition in_range (dt : int_dtype) (z : Z) : Prop :=
  match dt with
  | UInt8 => 0 <= z < 256
  | Int32 => - 2 ^ 31 <= z < 2 ^ 31
  | Int64 => - 2 ^ 63 <= z < 2 ^ 63
  end%Z.

(** Truncation toward zero. *)
Definition Rtrunc (r : R) : Z :=
  if Rle_dec 0 r then Int_part r else (- Int_part (- r))%Z.

(** Storing a [float64] into an integer array: the fractional part is
    dropped; a value outside the dtype keeps its low bits. *)
Definition cast_int (dt : int_dtype) (r : R) : Z := wrap dt (Rtrunc r).

(** [np.round]: to the nearest integer, halves to the even neighbour. *)
Definition np_round (r : R) : Z :=
  let f := Int_part r in
  let d := (r - IZR f)%R in
  if Rlt_dec d (1 / 2) then f
  else if Rlt_dec (1 / 2) d then (f + 1)%Z
  else if Z.even f then f else (f + 1)%Z.

(** An array together with its dtype. *)
Inductive ndarray :=
| IntArr (dt : int_dtype) (g : grid Z)
| FloatArr (g : grid R).

Definition as_real (a : ndarray) : grid R :=
  match a with
  | IntArr _ g => map (map IZR) g
  | FloatArr g => g
  end.

(** ** [np.pad(..., mode="reflect")] *)

(** Source index of position [i] (counted from the first original element,
    negative on the left) of an axis of [n >= 1] elements mirrored about
    its end points without repeating them.  An axis of one element is
    extended by that element. *)
Definition reflect_index (n : nat) (i : Z) : nat :=
  if (n =? 1)%nat then 0%nat
  else
    let p := (2 * (Z.of_nat n - 1))%Z in
    let m := (i mod p)%Z in
    Z.to_nat (if (m <? Z.of_nat n)%Z then m else (p - m)%Z).

Definition pad_reflect_1d {A} (d : A) (pad : nat) (l : list A) : list A :=
  map (fun p => nth (reflect_index (length l) (Z.of_nat p - Z.of_nat pad)) l d)
      (seq 0 (length l + 2 * pad)).

(** Pads the columns of every row, then the rows; an empty axis cannot be
    extended ([ValueError]). *)
Definition np_pad_reflect {A} (d : A) (g : grid A) (pad_h pad_w : nat)
  : option (grid A) :=
  if ((height g =? 0)%nat && negb (pad_h =? 0)%nat)
     || ((width g =? 0)%nat && negb (pad_w =? 0)%nat)
  then None
  else Some (pad_reflect_1d [] pad_h (map (pad_reflect_1d d pad_w) g)).

(** [a[i:i+h, j:j+w]] for non-negative [i], [j]. *)
Definition window {A} (g : grid A) (i j h w : nat) : grid A :=
  map (fun row => firstn w (skipn j row)) (firstn h (skipn i g)).

(** [np.sum(region * kernel)]. *)
Definition dot (u v : list R) : R :=
  rsum (map (fun p => (fst p * snd p)%R) (combine u v)).
Definition sum_prod (region kernel : grid R) : R :=
  rsum (map (fun p => dot (fst p) (snd p)) (combine region kernel)).


(** Every cell of an integer grid is a value of the dtype. *)
Definition grid_in_range (dt : int_dtype) (g : grid Z) : Prop :=
  Forall (Forall (in_range dt)) g.

(** Position [p] of an axis of [n] elements padded by [pad < n] elements on
    each side, as the index of the element mirrored there. *)
Definition mirror (n pad p : nat) : nat :=
  if (p <? pad)%nat then (pad - p)%nat
  else if (p <? n + pad)%nat then (p - pad)%nat
       else (2 * (n - 1) - (p - pad))%nat.

End Np.

(* ================================================================== *)
(** * Convolution engine and Gaussian smoother *)
(* ================================================================== *)

Module Conv.
Import Np.

(** The lambda handed to [np.fromfunction] in [gaussian_kernel]. *)
Definition gauss_raw (size : nat) (sigma : R) (x y : nat) : R :=
  (1 / (2 * PI * sigma ^ 2)
   * exp (- ((INR x - (INR size - 1) / 2) ^ 2
             + (INR y - (INR size - 1) / 2) ^ 2) / (2 * sigma ^ 2)))%R.

Definition gaussian_kernel (size : nat) (sigma : R) : grid R :=
  let kernel :=
    map (fun x => map (fun y => gauss_raw size sigma x y) (seq 0 size))
        (seq 0 size) in
  let total := grid_sum kernel in
  map (map (fun v => (v / total)%R)) kernel.

(** The two loops of [convolve] over the real values of the image. *)
Definition convolve_cells (image kernel : grid R) : option (grid R) :=
  let image_height := height image in
  let image_width := width image in
  let kernel_height := height kernel in
  let kernel_width := width kernel in
  let pad_h := (kernel_height / 2)%nat in
  let pad_w := (kernel_width / 2)%nat in
  match np_pad_reflect 0%R image pad_h pad_w with
  | None => None
  | Some padded_image =>
      Some (map (fun i =>
                   map (fun j =>
                          sum_prod
                            (window padded_image i j kernel_height kernel_width)
                            kernel)
                       (seq 0 image_width))
                (seq 0 image_height))
  end.

(** [output = np.zeros_like(image)] fixes the dtype of the result: every
    sum written into an integer array goes through [cast_int]. *)
Definition convolve (image : ndarray) (kernel : grid R) : option ndarray :=
  match image with
  | FloatArr g => option_map FloatArr (convolve_cells g kernel)
  | IntArr dt g =>
      option_map (fun out => IntArr dt (map (map (cast_int dt)) out))
                 (convolve_cells (map (map IZR) g) kernel)
  end.

Definition gaussian_blur (image : ndarray) (kernel_size : nat) (sigma : R)
  : option ndarray :=
  let kernel := gaussian_kernel kernel_size sigma in
  convolve image kernel.

(** The padded array the spec describes, cell by cell: row [p], column [q]
    of the padded grid is the input mirrored about its borders. *)
Definition padded_cell (image : grid R) (pad_h pad_w p q : nat) : R :=
  cell 0%R image
       (reflect_index (height image) (Z.of_nat p - Z.of_nat pad_h))
       (reflect_index (width image) (Z.of_nat q - Z.of_nat pad_w)).

(** The weighted neighbourhood sum of output cell [(i, j)]. *)
Definition neighbourhood_sum (image kernel : grid R) (i j : nat) : R :=
  rsum (map (fun a =>
          rsum (map (fun b =>
                  (padded_cell image (height kernel / 2) (width kernel / 2)
                               (i + a) (j + b)
                   * cell 0%R kernel a b)%R)
               (seq 0 (width kernel))))
       (seq 0 (height kernel))).

End Conv.

(* ================================================================== *)
(** * FAST candidate detector *)
(* ================================================================== *)

Module Fast.
Import Np.
Local Open Scope Z_scope.

(** [image.astype(np.int32)]. *)
Definition astype_int32 (image : ndarray) : grid Z :=
  match image with
  | IntArr _ g => map (map (wrap Int32)) g
  | FloatArr g => map (map (cast_int Int32)) g
  end.

(** Entries are [(dy, dx)], as the loops unpack them. *)
Definition bresenham_circle : list (Z * Z) :=
  [(0, -3); (1, -3); (2, -2); (3, -1);
   (3, 0); (3, 1); (2, 2); (1, 3);
   (0, 3); (-1, 3); (-2, 2); (-3, 1);
   (-3, 0); (-3, -1); (-2, -2); (-1, -3)].

(** [image[y, x]]; the scan keeps every index it reads inside the array. *)
Definition pixel (image : grid Z) (y x : Z) : Z :=
  cell 0 image (Z.to_nat y) (Z.to_nat x).

(** Sums of an [int32] pixel and the threshold stay [int32]. *)
Definition is_brighter (center_intensity threshold intensity : Z) : bool :=
  intensity >? wrap Int32 (center_intensity + threshold).
Definition is_darker (center_intensity threshold intensity : Z) : bool :=
  intensity <? wrap Int32 (center_intensity - threshold).

(** The loop over the cardinal positions [[0, 8, 4, 12]]: the pair of
    counters [(brighter, darker)] after it. *)
Definition cardinal_counts (image : grid Z) (y x threshold : Z) : nat * nat :=
  let center_intensity := pixel image y x in
  fold_left
    (fun (acc : nat * nat) (idx : nat) =>
       let '(brighter, darker) := acc in
       let '(dy, dx) := nth idx bresenham_circle (0, 0) in
       let intensity := pixel image (y + dy) (x + dx) in
       if is_brighter center_intensity threshold intensity
       then (S brighter, darker)
       else if is_darker center_intensity threshold intensity
            then (brighter, S darker)
            else (brighter, darker))
    [0; 8; 4; 12]%nat (0, 0)%nat.

Definition passes_prefilter (image : grid Z) (y x threshold : Z) : bool :=
  let '(brighter, darker) := cardinal_counts image y x threshold in
  (3 <=? brighter)%nat || (3 <=? darker)%nat.

(** The loop over the whole circle, from the current [sequential_count];
    [true] when it reaches the [break]. *)
Fixpoint circle_walk (image : grid Z) (y x threshold : Z)
         (circle : list (Z * Z)) (sequential_count : nat) : bool :=
  match circle with
  | [] => false
  | (dy, dx) :: rest =>
      let center_intensity := pixel image y x in
      let intensity := pixel image (y + dy) (x + dx) in
      if is_brighter center_intensity threshold intensity
         || is_darker center_intensity threshold intensity
      then
        if (12 <=? S sequential_count)%nat then true
        else circle_walk image y x threshold rest (S sequential_count)
      else circle_walk image y x threshold rest 0
  end.

(** Whether the body of the two scan loops appends [(x, y)]. *)
Definition accepts (image : grid Z) (y x threshold : Z) : bool :=
  if passes_prefilter image y x threshold
  then circle_walk image y x threshold bresenham_circle 0
  else false.

Definition detect_fast_int32 (image : grid Z) (threshold : Z) : list (Z * Z) :=
  let rows := Z.of_nat (height image) in
  let cols := Z.of_nat (width image) in
  flat_map
    (fun y =>
       flat_map
         (fun x => if accepts image y x threshold then [(x, y)] else [])
         (py_range 3 (cols - 3)))
    (py_range 3 (rows - 3)).

Definition detect_fast (image : ndarray) (threshold : Z) : list (Z * Z) :=
  detect_fast_int32 (astype_int32 image) threshold.

(** ** The acceptance rule in the words of the specification *)

(** The 16 intensities on the circle around [(y, x)], in circle order. *)
Definition circle_samples (image : grid Z) (y x : Z) : list Z :=
  map (fun d => pixel image (y + fst d) (x + snd d)) bresenham_circle.

(** [len] consecutive samples from index [start], wrapping past index 15,
    all satisfy [p]. *)
Definition arc_all (p : Z -> bool) (samples : list Z) (start len : nat) : bool :=
  forallb (fun k => p (nth ((start + k) mod 16) samples 0)) (seq 0 len).

(** Some arc of 12 samples of the circular sequence is entirely brighter
    than [center + threshold] or entirely darker than [center - threshold]. *)
Definition has_arc12 (image : grid Z) (y x threshold : Z) : bool :=
  let center := pixel image y x in
  let samples := circle_samples image y x in
  existsb
    (fun start =>
       arc_all (is_brighter center threshold) samples start 12
       || arc_all (is_darker center threshold) samples start 12)
    (seq 0 16).

(** What the walk of the source looks for instead.  A sample counts when
    it is brighter or darker, whichever; the count restarts at every sample
    that is neither, and the walk ends with index 15. *)
Definition differs (center threshold intensity : Z) : bool :=
  is_brighter center threshold intensity
  || is_darker center threshold intensity.

(** The walk on the 16 flags alone. *)
Fixpoint walk (flags : list bool) (sequential_count : nat) : bool :=
  match flags with
  | [] => false
  | b :: rest =>
      if b then
        if (12 <=? S sequential_count)%nat then true
        else walk rest (S sequential_count)
      else walk rest 0
  end.

(** 12 consecutive flags of the list, starting at one of the indices 0..4,
    are all set. *)
Definition linear_run12 (flags : list bool) : bool :=
  existsb
    (fun start => forallb (fun k => nth (start + k) flags false) (seq 0 12))
    (seq 0 5).

Definition has_linear_run12 (image : grid Z) (y x threshold : Z) : bool :=
  linear_run12
    (map (differs (pixel image y x) threshold) (circle_samples image y x)).

(** All lists of [n] flags. *)
Fixpoint all_flags (n : nat) : list (list bool) :=
  match n with
  | O => [[]]
  | S m => flat_map (fun l => [true :: l; false :: l]) (all_flags m)
  end.

(** A 7x7 image, centre 100: circle samples 10..15 and 0..5 are 200, samples
    6..9 are 100.  The 12 bright samples are contiguous on the circle but
    the run passes through index 0. *)
Definition wrap_arc_image : grid Z :=
  [[100; 100; 200; 200; 200; 100; 100];
   [100; 200; 100; 100; 100; 200; 100];
   [200; 100; 100; 100; 100; 100; 100];
   [200; 100; 100; 100; 100; 100; 100];
   [200; 100; 100; 100; 100; 100; 100];
   [100; 200; 100; 100; 100; 100; 100];
   [100; 100; 200; 200; 200; 100; 100]].

(** A 7x7 image, centre 100: circle samples 0, 4 and 12 are 200, the other
    thirteen are 0.  No arc of one polarity is longer than 7. *)
Definition mixed_polarity_image : grid Z :=
  [[100; 100;   0; 200;   0; 100; 100];
   [100;   0; 100; 100; 100;   0; 100];
   [  0; 100; 100; 100; 100; 100;   0];
   [200; 100; 100; 100; 100; 100;   0];
   [  0; 100; 100; 100; 100; 100;   0];
   [100;   0; 100; 100; 100;   0; 100];
   [100; 100;   0; 200;   0; 100; 100]].

(** The order in which the two scan loops visit the pixels: row by row,
    and left to right within a row. *)
Definition scan_before (p q : Z * Z) : Prop :=
  snd p < snd q \/ (snd p = snd q /\ fst p < fst q).

(** The keypoints appended while the inner loop scans the columns [xs] of
    row [y]. *)
Definition candidates_of (image : grid Z) (threshold : Z) (y : Z)
           (xs : list Z) : list (Z * Z) :=
  flat_map (fun x => if accepts image y x threshold then [(x, y)] else []) xs.

End Fast.

(* ================================================================== *)
(** * Harris corner filter *)
(* ================================================================== *)

Module Harris.
Import Np.

(** [np.gradient] along one axis of [n] samples [f 0 .. f (n-1)] with unit
    spacing: one-sided differences at the two ends, central differences
    in between. *)
Definition gradient_at (n : nat) (f : nat -> R) (i : nat) : R :=
  if (i =? 0)%nat then (f 1%nat - f 0%nat)%R
  else if (i =? n - 1)%nat then (f (n - 1)%nat - f (n - 2)%nat)%R
  else ((f (i + 1)%nat - f (i - 1)%nat) / 2)%R.

(** [np.gradient(image, axis=1)]: along each row.  An axis shorter than two
    samples is a [ValueError]. *)
Definition gradient_axis1 (image : grid R) : option (grid R) :=
  if (width image <? 2)%nat then None
  else Some (map (fun i =>
                    map (fun j =>
                           gradient_at (width image)
                                       (fun c => cell 0%R image i c) j)
                        (seq 0 (width image)))
                 (seq 0 (height image))).

(** [np.gradient(image, axis=0)]: along each column. *)
Definition gradient_axis0 (image : grid R) : option (grid R) :=
  if (height image <? 2)%nat then None
  else Some (map (fun i =>
                    map (fun j =>
                           gradient_at (height image)
                                       (fun r => cell 0%R image r j) i)
                        (seq 0 (width image)))
                 (seq 0 (height image))).

(** Elementwise product of two arrays of one shape. *)
Definition grid_mul (a b : grid R) : grid R :=
  map (fun rows =>
         map (fun p => (fst p * snd p)%R) (combine (fst rows) (snd rows)))
      (combine a b).

(** An index as NumPy resolves it: negative values count from the end,
    anything else outside the axis is an [IndexError]. *)
Definition np_index (n : nat) (i : Z) : option nat :=
  if ((0 <=? i) && (i <? Z.of_nat n))%Z then Some (Z.to_nat i)
  else if ((- Z.of_nat n <=? i) && (i <? 0))%Z
       then Some (Z.to_nat (i + Z.of_nat n))
       else None.

(** [a[y, x]]. *)
Definition getitem (a : grid R) (y x : Z) : option R :=
  match np_index (height a) y, np_index (width a) x with
  | Some i, Some j => Some (cell 0%R a i j)
  | _, _ => None
  end.

(** The response computed in the body of the loop over the keypoints. *)
Definition response (Ixx Iyy Ixy : grid R) (k : R) (x y : Z) : option R :=
  match getitem Ixx y x, getitem Iyy y x, getitem Ixy y x with
  | Some Sxx, Some Syy, Some Sxy =>
      let det := (Sxx * Syy - Sxy ^ 2)%R in
      let trace := (Sxx + Syy)%R in
      Some (det - k * trace ^ 2)%R
  | _, _, _ => None
  end.

Definition scored := (Z * Z * R)%type.
Definition score (p : scored) : R := snd p.
Definition point (p : scored) : Z * Z := fst p.

(** The loop building [filtered_keypoints]. *)
Fixpoint filter_loop (Ixx Iyy Ixy : grid R) (k threshold : R)
         (keypoints : list (Z * Z)) : option (list scored) :=
  match keypoints with
  | [] => Some []
  | (x, y) :: rest =>
      match response Ixx Iyy Ixy k x y with
      | None => None
      | Some R =>
          match filter_loop Ixx Iyy Ixy k threshold rest with
          | None => None
          | Some tail =>
              Some (if Rgt_dec R threshold then (x, y, R) :: tail else tail)
          end
      end
  end.

(** [sorted(..., key=lambda k: k[2], reverse=True)]: descending by score,
    entries of equal score in their original order. *)
Fixpoint insert_desc (p : scored) (l : list scored) : list scored :=
  match l with
  | [] => [p]
  | q :: rest =>
      if Rlt_dec (score p) (score q) then q :: insert_desc p rest
      else p :: q :: rest
  end.

Definition sorted_desc (l : list scored) : list scored :=
  fold_right insert_desc [] l.

(** The three smoothed second-moment arrays [(Ixx, Iyy, Ixy)].
    [np.gradient] converts an integer image to [float64] before it takes
    differences, so the products and their smoothing are [float64]. *)
Definition structure_tensor (image : ndarray)
  : option (grid R * grid R * grid R) :=
  match gradient_axis1 (as_real image) with
  | None => None
  | Some Ix =>
      match gradient_axis0 (as_real image) with
      | None => None
      | Some Iy =>
          let Ixx := grid_mul Ix Ix in
          let Iyy := grid_mul Iy Iy in
          let Ixy := grid_mul Ix Iy in
          match Conv.gaussian_blur (FloatArr Ixx) 5 1,
                Conv.gaussian_blur (FloatArr Iyy) 5 1,
                Conv.gaussian_blur (FloatArr Ixy) 5 1 with
          | Some Sxx, Some Syy, Some Sxy =>
              Some (as_real Sxx, as_real Syy, as_real Sxy)
          | _, _, _ => None
          end
      end
  end.

Definition harris_detector (image : ndarray) (keypoints : list (Z * Z))
           (k threshold : R) : option (list (Z * Z)) :=
  match structure_tensor image with
  | None => None
  | Some (Ixx, Iyy, Ixy) =>
      match filter_loop Ixx Iyy Ixy k threshold keypoints with
      | None => None
      | Some filtered_keypoints =>
          Some (map point (sorted_desc filtered_keypoints))
      end
  end.

(** Default arguments [k=0.05], [threshold=1e-5]. *)
Definition default_k : R := (5 / 100)%R.
Definition default_threshold : R := (1 / 100000)%R.

(** The response at a candidate that lies in the arrays, and the
    acceptance test on it. *)
Definition response_at (Ixx Iyy Ixy : grid R) (k : R) (p : Z * Z) : R :=
  let Sxx := cell 0%R Ixx (Z.to_nat (snd p)) (Z.to_nat (fst p)) in
  let Syy := cell 0%R Iyy (Z.to_nat (snd p)) (Z.to_nat (fst p)) in
  let Sxy := cell 0%R Ixy (Z.to_nat (snd p)) (Z.to_nat (fst p)) in
  ((Sxx * Syy - Sxy ^ 2) - k * (Sxx + Syy) ^ 2)%R.

Definition above (threshold r : R) : bool :=
  if Rgt_dec r threshold then true else false.

(** Descending order of score. *)
Definition desc (p q : scored) : Prop := (score q <= score p)%R.

(** A coordinate inside arrays of [H] rows and [W] columns. *)
Definition in_bounds (H W : nat) (p : Z * Z) : Prop :=
  (0 <= fst p < Z.of_nat W)%Z /\ (0 <= snd p < Z.of_nat H)%Z.

(** A candidate is a pixel coordinate of the image. *)
Definition in_image (image : ndarray) (p : Z * Z) : Prop :=
  (0 <= fst p < Z.of_nat (width (as_real image)))%Z
  /\ (0 <= snd p < Z.of_nat (height (as_real image)))%Z.


End Harris.

(* ================================================================== *)
(** * Orientation estimator *)
(* ================================================================== *)

Module Orient.
Import Np.
Local Open Scope Z_scope.

(** The image handed to this stage and to the descriptor stage is the
    smoothed [uint8] image: its samples are integers, and the [int64]
    products and sums of the moments cannot overflow on them. *)

(** Bounds of [a[start:stop]] on an axis of [n] elements, as Python
    resolves them: a negative bound counts from the end, and both are
    clamped to [0 .. n]. *)
Definition slice_bound (n i : Z) : Z :=
  if i <? 0 then Z.max 0 (i + n) else Z.min i n.

Definition slice_len (n start stop : Z) : Z :=
  Z.max 0 (slice_bound n stop - slice_bound n start).

Definition py_slice {A} (l : list A) (start stop : Z) : list A :=
  let n := Z.of_nat (length l) in
  firstn (Z.to_nat (slice_len n start stop))
         (skipn (Z.to_nat (slice_bound n start)) l).

(** [image[y-radius:y+radius+1, x-radius:x+radius+1]]. *)
Definition extract_patch (image : grid Z) (x y radius : Z) : grid Z :=
  map (fun row => py_slice row (x - radius) (x + radius + 1))
      (py_slice image (y - radius) (y + radius + 1)).

(** [patch.shape]. *)
Definition patch_shape (image : grid Z) (x y radius : Z) : Z * Z :=
  (slice_len (Z.of_nat (height image)) (y - radius) (y + radius + 1),
   slice_len (Z.of_nat (width image)) (x - radius) (x + radius + 1)).

Definition full_patch (image : grid Z) (x y patch_size : Z) : bool :=
  let radius := patch_size / 2 in
  let '(h, w) := patch_shape image x y radius in
  (h =? patch_size) && (w =? patch_size).

(** [np.arange(lo, hi)]. *)
Definition arange (lo hi : Z) : list Z := py_range lo hi.

Definition zsum (l : list Z) : Z := fold_right Z.add 0 l.

(** [np.sum(patch * np.arange(-radius, radius+1)[:, None])]: the weights
    form a column, so row [r] of the patch is scaled by [r - radius]. *)
Definition m10 (patch : grid Z) (radius : Z) : Z :=
  zsum (map (fun p => zsum (map (fun v => v * snd p) (fst p)))
            (combine patch (arange (- radius) (radius + 1)))).

(** [np.sum(patch * np.arange(-radius, radius+1)[None, :])]: the weights
    form a row, so column [c] of the patch is scaled by [c - radius]. *)
Definition m01 (patch : grid Z) (radius : Z) : Z :=
  zsum (map (fun row =>
               zsum (map (fun p => fst p * snd p)
                         (combine row (arange (- radius) (radius + 1)))))
            patch).

(** [math.atan2(y, x)]. *)
Definition atan2 (y x : R) : R :=
  if Rlt_dec 0 x then atan (y / x)
  else if Rlt_dec x 0
       then if Rle_dec 0 y then (atan (y / x) + PI)%R
            else (atan (y / x) - PI)%R
       else if Rlt_dec 0 y then (PI / 2)%R
            else if Rlt_dec y 0 then (- (PI / 2))%R
                 else 0%R.

(** The body of the loop for one keypoint.  A patch of even size at least
    2 that passes the shape test cannot be multiplied by the weight column
    of [patch_size + 1] entries ([ValueError]). *)
Definition orientation_of (image : grid Z) (patch_size : Z) (kp : Z * Z)
  : option R :=
  let radius := patch_size / 2 in
  let '(x, y) := kp in
  let patch := extract_patch image x y radius in
  if negb (full_patch image x y patch_size) then Some 0%R
  else if Z.even patch_size && (2 <=? patch_size) then None
  else Some (atan2 (IZR (m01 patch radius)) (IZR (m10 patch radius))).

Fixpoint calculate_orientation (image : grid Z) (keypoints : list (Z * Z))
         (patch_size : Z) : option (list R) :=
  match keypoints with
  | [] => Some []
  | kp :: rest =>
      match orientation_of image patch_size kp with
      | None => None
      | Some angle =>
          option_map (cons angle) (calculate_orientation image rest patch_size)
      end
  end.

(** The value appended for a keypoint when the loop body does not fail. *)
Definition orientation_value (image : grid Z) (patch_size : Z) (kp : Z * Z)
  : R :=
  let radius := patch_size / 2 in
  let patch := extract_patch image (fst kp) (snd kp) radius in
  if full_patch image (fst kp) (snd kp) patch_size
  then atan2 (IZR (m01 patch radius)) (IZR (m10 patch radius))
  else 0%R.

(** The patch around a pixel coordinate lies inside the grid. *)
Definition patch_fits (image : grid Z) (radius : Z) (kp : Z * Z) : Prop :=
  radius <= fst kp /\ fst kp + radius < Z.of_nat (width image)
  /\ radius <= snd kp /\ snd kp + radius < Z.of_nat (height image).

Definition pixel_coordinate (kp : Z * Z) : Prop := 0 <= fst kp /\ 0 <= snd kp.

(** The first-order moments in the words of the specification: [m10]
    weighted by the column offset from the centre, [m01] by the row
    offset. *)
Definition spec_m10 (patch : grid Z) (radius : Z) : Z :=
  zsum (map (fun r =>
          zsum (map (fun c =>
                  cell 0 patch r c * (Z.of_nat c - radius))
               (seq 0 (width patch))))
       (seq 0 (height patch))).

Definition spec_m01 (patch : grid Z) (radius : Z) : Z :=
  zsum (map (fun r =>
          zsum (map (fun c =>
                  cell 0 patch r c * (Z.of_nat r - radius))
               (seq 0 (width patch))))
       (seq 0 (height patch))).

(** A 3x3 image whose only mass is the pixel right of the centre. *)
Definition blob_right : grid Z :=
  [[0; 0; 0];
   [0; 0; 9];
   [0; 0; 0]].

(** A 3x3 image whose only mass is the pixel left of the centre. *)
Definition blob_left : grid Z :=
  [[0; 0; 0];
   [9; 0; 0];
   [0; 0; 0]].

(** A [patch_size] x [patch_size] image, all zero but one pixel of value
    [v] in the centre row, [d] columns right of the centre. *)
Definition blob_right_of (radius d v : Z) : grid Z :=
  map (fun r =>
         map (fun c =>
                if (r =? radius) && (c =? radius + d) then v else 0)
             (py_range 0 (2 * radius + 1)))
      (py_range 0 (2 * radius + 1)).

End Orient.

(* ================================================================== *)
(** * BRIEF descriptor generator *)
(* ================================================================== *)

Module Brief.
Import Np.
Local Open Scope Z_scope.

(** One row of [np.round(random_points @ rotation_mat.T).astype(int)]. *)
Definition rotate_point (angle : R) (p : Z * Z) : Z * Z :=
  let '(a, b) := p in
  (np_round (IZR a * cos angle + IZR b * - sin angle)%R,
   np_round (IZR a * sin angle + IZR b * cos angle)%R).

(** [patch[row, col]] behind the bounds test of the source. *)
Definition patch_at (patch : grid Z) (row col : Z) : Z :=
  cell 0 patch (Z.to_nat row) (Z.to_nat col).

(** The bit appended for one rotated pair [(dx, dy)]. *)
Definition brief_bit (patch : grid Z) (radius patch_size : Z) (d : Z * Z) : Z :=
  let '(dx, dy) := d in
  let px1 := radius + dx in
  let py1 := radius + dy in
  let px2 := radius - dx in
  let py2 := radius - dy in
  if (0 <=? px1) && (px1 <? patch_size) && (0 <=? py1) && (py1 <? patch_size)
     && (0 <=? px2) && (px2 <? patch_size) && (0 <=? py2) && (py2 <? patch_size)
  then if patch_at patch py1 px1 >? patch_at patch py2 px2 then 1 else 0
  else 0.

(** The positions compared for a pair both lie in the patch. *)
Definition pair_in_patch (radius patch_size : Z) (d : Z * Z) : Prop :=
  0 <= radius + fst d < patch_size /\ 0 <= radius + snd d < patch_size
  /\ 0 <= radius - fst d < patch_size /\ 0 <= radius - snd d < patch_size.

(** The inner loop: the bits of one keypoint with a full patch. *)
Definition descriptor_bits (image : grid Z) (patch_size : Z)
           (random_points : list (Z * Z)) (kp : Z * Z) (angle : R) : list Z :=
  let radius := patch_size / 2 in
  let '(x, y) := kp in
  let patch := Orient.extract_patch image x y radius in
  let rotated_points := map (rotate_point angle) random_points in
  map (brief_bit patch radius patch_size) rotated_points.

(** The body of the loop for one keypoint: nothing for a clipped patch,
    otherwise the list of bits, kept when it has [n] entries. *)
Definition descriptor_of (image : grid Z) (patch_size : Z) (n : nat)
           (random_points : list (Z * Z)) (kp : Z * Z) (angle : R)
  : list (list Z) :=
  if negb (Orient.full_patch image (fst kp) (snd kp) patch_size) then []
  else
    let descriptor := descriptor_bits image patch_size random_points kp angle in
    if (length descriptor =? n)%nat then [descriptor] else [].

(** [random_points] is the draw of [np.random.randint(-radius, radius,
    size=(n, 2))], handed in by the caller; the draw itself fails when
    [radius <= 0]. *)
Definition brief_descriptor (image : grid Z) (keypoints : list (Z * Z))
           (orientations : list R) (patch_size : Z) (n : nat)
           (random_points : list (Z * Z)) : option (list (list Z)) :=
  let radius := patch_size / 2 in
  if radius <=? 0 then None
  else
    Some (flat_map
            (fun p => descriptor_of image patch_size n random_points
                                    (fst p) (snd p))
            (combine keypoints orientations)).

(** The keypoints that get a descriptor. *)
Definition survivors (image : grid Z) (patch_size : Z)
           (keypoints : list (Z * Z)) : list (Z * Z) :=
  filter (fun kp => Orient.full_patch image (fst kp) (snd kp) patch_size)
         keypoints.

(** What the draw of the pattern guarantees: [n] pairs, each coordinate in
    [-radius .. radius - 1]. *)
Definition valid_pattern (radius : Z) (n : nat) (random_points : list (Z * Z))
  : Prop :=
  length random_points = n
  /\ Forall (fun p => - radius <= fst p < radius /\ - radius <= snd p < radius)
            random_points.

Definition is_bit (b : Z) : Prop := b = 0 \/ b = 1.

End Brief.

(* ================================================================== *)
(** * The script: smoothing, detection, ranking, orientation, description *)
(* ================================================================== *)

Module Pipeline.
Import Np.

(** The statements of the script from [image_smoothed = ...] to
    [descriptors = ...], on the [uint8] image the script builds, with the
    default arguments of the stages ([k], [threshold], [patch_size = 31],
    [n = 256]).  The smoothed image keeps the dtype of the input, so the
    later stages work on an integer image; the pattern drawn by
    [brief_descriptor] is the second argument. *)
Definition run (image : grid Z) (random_points : list (Z * Z))
  : option (list (Z * Z) * list R * list (list Z)) :=
  match Conv.gaussian_blur (IntArr UInt8 image) 5 1 with
  | Some (IntArr dt smoothed) =>
      let image_smoothed := IntArr dt smoothed in
      let candidates := Fast.detect_fast image_smoothed 10 in
      match Harris.harris_detector image_smoothed candidates
                                   Harris.default_k Harris.default_threshold with
      | None => None
      | Some keypoints =>
          match Orient.calculate_orientation smoothed keypoints 31 with
          | None => None
          | Some orientations =>
              match Brief.brief_descriptor smoothed keypoints orientations
                                           31 256 random_points with
              | None => None
              | Some descriptors => Some (keypoints, orientations, descriptors)
              end
          end
      end
  | _ => None
  end.

(** Whether the 31x31 patch around a point fits in an image of [H] rows and
    [W] columns. *)
Definition fits31 (H W : nat) (p : Z * Z) : bool :=
  ((15 <=? fst p) && (fst p + 15 <? Z.of_nat W)
   && (15 <=? snd p) && (snd p + 15 <? Z.of_nat H))%Z.

End Pipeline.

(* ================================================================== *)
(** * Facts about the NumPy primitives *)
(* ================================================================== *)

Module NpFacts.
Import Np.

Section Lists.
Variable A : Type.

Lemma nth_map_seq (f : nat -> A) (d : A) (n k : nat) :
  (k < n)%nat -> nth k (map f (seq 0 n)) d = f k.
Proof.
  intros Hk.
  rewrite (nth_indep _ d (f 0%nat)) by (now rewrite length_map, length_seq).
  rewrite (map_nth f (seq 0 n) 0%nat k).
  now rewrite seq_nth.
Qed.

Lemma list_as_map_nth (d : A) (l : list A) :
  l = map (fun k => nth k l d) (seq 0 (length l)).
Proof.
  apply nth_ext with (d := d) (d' := d).
  - now rewrite length_map, length_seq.
  - intros k Hk. now rewrite nth_map_seq.
Qed.

Lemma map_seq_const (c : A) (n : nat) :
  map (fun _ => c) (seq 0 n) = repeat c n.
Proof.
  generalize 0%nat; induction n as [|n IH]; intros s; simpl; [easy|].
  now rewrite IH.
Qed.

Lemma nth_window_row (d : A) (row : list A) (j w b : nat) :
  (b < w)%nat -> nth b (firstn w (skipn j row)) d = nth (j + b) row d.
Proof.
  intros Hb. rewrite nth_firstn.
  destruct (Nat.ltb_spec b w); [|lia].
  now rewrite nth_skipn.
Qed.

Lemma length_window_row (row : list A) (j w : nat) :
  (j + w <= length row)%nat -> length (firstn w (skipn j row)) = w.
Proof.
  intros H. rewrite length_firstn, length_skipn. lia.
Qed.

End Lists.

Lemma combine_as_map_nth (A B : Type) (da : A) (db : B)
        (u : list A) (v : list B) (n : nat) :
    length u = n -> length v = n ->
    combine u v = map (fun k => (nth k u da, nth k v db)) (seq 0 n).
  Proof.
    intros Hu Hv.
    apply nth_ext with (d := (da, db)) (d' := (da, db)).
    - rewrite length_combine, length_map, length_seq. lia.
    - intros k Hk. rewrite length_combine in Hk.
      rewrite combine_nth by lia.
      rewrite (nth_map_seq (fun k => (nth k u da, nth k v db))) by lia.
      reflexivity.
  Qed.


Lemma rsum_ext (B : Type) (f g : B -> R) (l : list B) :
  (forall x, In x l -> f x = g x) -> rsum (map f l) = rsum (map g l).
Proof.
  intros H. f_equal. now apply map_ext_in.
Qed.

Lemma rsum_scale (B : Type) (c : R) (f : B -> R) (l : list B) :
  rsum (map (fun x => (c * f x)%R) l) = (c * rsum (map f l))%R.
Proof.
  induction l as [|x l IH]; simpl; [ring|].
  rewrite IH. ring.
Qed.

Lemma rsum_pos (l : list R) :
  l <> [] -> Forall (fun v => (0 < v)%R) l -> (0 < rsum l)%R.
Proof.
  intros Hne Hall. induction Hall as [|v l Hv Hall IH]; [easy|].
  simpl. destruct l as [|w l].
  - simpl. lra.
  - assert (0 < rsum (w :: l))%R by (apply IH; discriminate). lra.
Qed.

(** ** Integer casts *)

Lemma Int_part_IZR (z : Z) : Int_part (IZR z) = z.
Proof.
  symmetry. apply Int_part_spec. lra.
Qed.


Lemma wrap_in_range (dt : int_dtype) (z : Z) : in_range dt z -> wrap dt z = z.
Proof.
  destruct dt; unfold in_range, wrap; intros H.
  - apply Z.mod_small; lia.
  - rewrite Z.mod_small; lia.
  - rewrite Z.mod_small; lia.
Qed.

Lemma wrap_range (dt : int_dtype) (z : Z) : in_range dt (wrap dt z).
Proof.
  destruct dt; unfold in_range, wrap.
  - apply Z.mod_pos_bound; lia.
  - pose proof (Z.mod_pos_bound (z + 2 ^ 31) (2 ^ 32)); lia.
  - pose proof (Z.mod_pos_bound (z + 2 ^ 63) (2 ^ 64)); lia.
Qed.


(** [Rtrunc] drops the fractional part toward zero. *)
Lemma Rtrunc_spec (r : R) :
  (Rabs (IZR (Rtrunc r)) <= Rabs r)%R /\ (Rabs (r - IZR (Rtrunc r)) < 1)%R
  /\ (0 <= r * IZR (Rtrunc r))%R.
Proof.
  unfold Rtrunc. destruct (Rle_dec 0 r) as [H|H].
  - destruct (base_Int_part r) as [H1 H2].
    assert (0 <= Int_part r)%Z.
    { apply le_IZR. destruct (Z_le_gt_dec 0 (Int_part r)) as [Hz|Hz];
        [now apply IZR_le|].
      assert (Int_part r <= -1)%Z by lia.
      apply IZR_le in H0. lra. }
    apply IZR_le in H0.
    repeat split.
    + rewrite !Rabs_pos_eq; lra.
    + rewrite Rabs_pos_eq; lra.
    + apply Rmult_le_pos; lra.
  - destruct (base_Int_part (- r)) as [H1 H2].
    rewrite opp_IZR.
    assert (0 <= Int_part (- r))%Z.
    { destruct (Z_le_gt_dec 0 (Int_part (- r))) as [Hz|Hz]; [easy|].
      assert (Int_part (- r) <= -1)%Z by lia.
      apply IZR_le in H0. lra. }
    apply IZR_le in H0.
    repeat split.
    + rewrite !Rabs_left1; lra.
    + rewrite Rabs_left1; lra.
    + replace (r * - IZR (Int_part (- r)))%R
        with ((- r) * IZR (Int_part (- r)))%R by ring.
      apply Rmult_le_pos; lra.
Qed.

(** ** Reflect padding *)

Lemma reflect_index_lt (n : nat) (i : Z) :
  (1 <= n)%nat -> (reflect_index n i < n)%nat.
Proof.
  intros Hn. unfold reflect_index.
  destruct (Nat.eqb_spec n 1) as [->|Hne]; [lia|].
  assert (Hp : (0 < 2 * (Z.of_nat n - 1))%Z) by lia.
  pose proof (Z.mod_pos_bound i _ Hp) as Hm.
  destruct (Z.ltb_spec (i mod (2 * (Z.of_nat n - 1))) (Z.of_nat n)); lia.
Qed.

(** Inside the array the padded axis is the array itself. *)
Lemma reflect_index_inside (n : nat) (i : nat) :
  (i < n)%nat -> reflect_index n (Z.of_nat i) = i.
Proof.
  intros Hi. unfold reflect_index.
  destruct (Nat.eqb_spec n 1) as [->|Hne]; [lia|].
  rewrite Z.mod_small by lia.
  destruct (Z.ltb_spec (Z.of_nat i) (Z.of_nat n)); lia.
Qed.

(** Left of the array the values are mirrored about element 0: position
    [-k] holds element [k] (not element [n - k], not zero). *)
Lemma reflect_index_mirror_left (n k : nat) :
  (1 <= k < n)%nat -> reflect_index n (- Z.of_nat k) = k.
Proof.
  intros Hk. unfold reflect_index.
  destruct (Nat.eqb_spec n 1) as [->|Hne]; [lia|].
  set (p := (2 * (Z.of_nat n - 1))%Z).
  replace ((- Z.of_nat k) mod p)%Z with (p - Z.of_nat k)%Z.
  2:{ apply Z.mod_unique with (q := (-1)%Z); unfold p; lia. }
  destruct (Z.ltb_spec (p - Z.of_nat k) (Z.of_nat n)); unfold p in *; lia.
Qed.

(** Right of the array the values are mirrored about the last element. *)
Lemma reflect_index_mirror_right (n k : nat) :
  (1 <= k < n)%nat ->
  reflect_index n (Z.of_nat (n - 1) + Z.of_nat k) = (n - 1 - k)%nat.
Proof.
  intros Hk. unfold reflect_index.
  destruct (Nat.eqb_spec n 1) as [->|Hne]; [lia|].
  set (p := (2 * (Z.of_nat n - 1))%Z).
  destruct (Nat.eq_dec k (n - 1)) as [->|Hk'].
  - replace (Z.of_nat (n - 1) + Z.of_nat (n - 1))%Z with (1 * p)%Z
      by (unfold p; lia).
    rewrite Z.mod_mul by (unfold p; lia).
    destruct (Z.ltb_spec 0 (Z.of_nat n)); lia.
  - rewrite Z.mod_small by (unfold p; lia).
    destruct (Z.ltb_spec (Z.of_nat (n - 1) + Z.of_nat k) (Z.of_nat n));
      unfold p in *; lia.
Qed.

Lemma length_pad_reflect_1d (A : Type) (d : A) (pad : nat) (l : list A) :
  length (pad_reflect_1d d pad l) = (length l + 2 * pad)%nat.
Proof.
  unfold pad_reflect_1d. now rewrite length_map, length_seq.
Qed.

Lemma nth_pad_reflect_1d (A : Type) (d d' : A) (pad : nat) (l : list A) (p : nat) :
  (p < length l + 2 * pad)%nat ->
  nth p (pad_reflect_1d d pad l) d'
  = nth (reflect_index (length l) (Z.of_nat p - Z.of_nat pad)) l d.
Proof.
  intros Hp. unfold pad_reflect_1d.
  now rewrite nth_map_seq.
Qed.

End NpFacts.

(* ================================================================== *)
(** * Convolution engine *)
(* ================================================================== *)

Module ConvFacts.
Import Np NpFacts Conv.

Lemma rectangular_row (A : Type) (g : grid A) (h w i : nat) :
  rectangular g h w -> (i < h)%nat -> length (nth i g []) = w.
Proof.
  intros [Hh Hrows] Hi.
  rewrite Forall_forall in Hrows. apply Hrows, nth_In. lia.
Qed.

Lemma rectangular_width (A : Type) (g : grid A) (h w : nat) :
  rectangular g h w -> (1 <= h)%nat -> width g = w.
Proof.
  intros Hr Hh. unfold width.
  rewrite <- (rectangular_row (i := 0) Hr) by lia.
  destruct g; reflexivity.
Qed.

Lemma rectangular_const (A : Type) (h w : nat) (c : A) :
  rectangular (const_grid h w c) h w.
Proof.
  split; unfold const_grid.
  - apply repeat_length.
  - apply Forall_forall. intros row Hin.
    apply repeat_spec in Hin. subst row. apply repeat_length.
Qed.

Lemma cell_const (A : Type) (d : A) (h w : nat) (c : A) (i j : nat) :
  (i < h)%nat -> (j < w)%nat -> cell d (const_grid h w c) i j = c.
Proof.
  intros Hi Hj. unfold cell, const_grid.
  rewrite nth_repeat_lt by assumption.
  now rewrite nth_repeat_lt.
Qed.

Lemma rectangular_map (A B : Type) (f : A -> B) (g : grid A) (h w : nat) :
  rectangular g h w -> rectangular (map (map f) g) h w.
Proof.
  intros [Hh Hrows]. split.
  - now rewrite length_map.
  - apply Forall_map. eapply Forall_impl; [|exact Hrows].
    intros row Hrow. simpl. now rewrite length_map.
Qed.

Lemma cell_map (A B : Type) (f : A -> B) (da : A) (db : B) (g : grid A)
      (h w i j : nat) :
  rectangular g h w -> (i < h)%nat -> (j < w)%nat ->
  cell db (map (map f) g) i j = f (cell da g i j).
Proof.
  intros Hr Hi Hj. unfold cell.
  pose proof (rectangular_row Hr Hi) as Hlen.
  destruct Hr as [Hh _].
  rewrite (nth_indep _ [] (map f [])) by (rewrite length_map; lia).
  rewrite map_nth.
  rewrite (nth_indep _ db (f da)) by (rewrite length_map; lia).
  now rewrite map_nth.
Qed.

Lemma dot_as_sum (u v : list R) (n : nat) :
  length u = n -> length v = n ->
  dot u v = rsum (map (fun b => (nth b u 0 * nth b v 0)%R) (seq 0 n)).
Proof.
  intros Hu Hv. unfold dot.
  rewrite (combine_as_map_nth 0%R 0%R u v Hu Hv), map_map.
  reflexivity.
Qed.

Lemma np_pad_reflect_nonempty (A : Type) (d : A) (g : grid A) (ph pw : nat) :
  (1 <= height g)%nat -> (1 <= width g)%nat ->
  np_pad_reflect d g ph pw
  = Some (pad_reflect_1d [] ph (map (pad_reflect_1d d pw) g)).
Proof.
  intros Hh Hw. unfold np_pad_reflect.
  destruct (Nat.eqb_spec (height g) 0); [lia|].
  destruct (Nat.eqb_spec (width g) 0); [lia|].
  reflexivity.
Qed.

Section Padded.
Variables (image : grid R) (H W ph pw : nat).
Hypothesis Himage : rectangular image H W.
Hypothesis HH : (1 <= H)%nat.
Hypothesis HW : (1 <= W)%nat.

Let padded := pad_reflect_1d [] ph (map (pad_reflect_1d 0%R pw) image).

Lemma length_padded : length padded = (H + 2 * ph)%nat.
Proof.
  unfold padded. rewrite length_pad_reflect_1d, length_map.
  destruct Himage as [-> _]. reflexivity.
Qed.

Lemma padded_row (p : nat) :
  (p < H + 2 * ph)%nat ->
  nth p padded []
  = pad_reflect_1d 0%R pw
      (nth (reflect_index H (Z.of_nat p - Z.of_nat ph)) image []).
Proof.
  intros Hp. unfold padded.
  assert (Hlen : length image = H) by apply Himage.
  rewrite (nth_pad_reflect_1d [] []) by (rewrite length_map; lia).
  rewrite length_map, Hlen.
  pose proof (reflect_index_lt (Z.of_nat p - Z.of_nat ph) HH) as Hri.
  rewrite (nth_indep _ [] (pad_reflect_1d 0%R pw []))
    by (rewrite length_map; lia).
  now rewrite map_nth.
Qed.

Lemma length_padded_row (p : nat) :
  (p < H + 2 * ph)%nat -> length (nth p padded []) = (W + 2 * pw)%nat.
Proof.
  intros Hp. rewrite padded_row by assumption.
  rewrite length_pad_reflect_1d.
  rewrite (rectangular_row Himage); [reflexivity|].
  now apply reflect_index_lt.
Qed.

Lemma cell_padded (p q : nat) :
  (p < H + 2 * ph)%nat -> (q < W + 2 * pw)%nat ->
  cell 0%R padded p q = padded_cell image ph pw p q.
Proof.
  intros Hp Hq. unfold cell at 1. rewrite padded_row by assumption.
  pose proof (reflect_index_lt (Z.of_nat p - Z.of_nat ph) HH) as Hri.
  pose proof (rectangular_row Himage Hri) as Hrow.
  rewrite (nth_pad_reflect_1d 0%R 0%R) by lia.
  unfold padded_cell, cell, height.
  rewrite (rectangular_width Himage HH).
  destruct Himage as [-> _]. now rewrite Hrow.
Qed.
End Padded.

(** The sum taken over one window is the double sum over the kernel
    positions of padded input times weight. *)
Lemma window_sum (image kernel : grid R) (H W i j : nat) :
  rectangular image H W -> (1 <= H)%nat -> (1 <= W)%nat ->
  rectangular kernel (height kernel) (width kernel) ->
  (i < H)%nat -> (j < W)%nat ->
  sum_prod
    (window (pad_reflect_1d [] (height kernel / 2)
               (map (pad_reflect_1d 0%R (width kernel / 2)) image))
            i j (height kernel) (width kernel))
    kernel
  = neighbourhood_sum image kernel i j.
Proof.
  intros Himage HH HW Hkernel Hi Hj.
  set (kh := height kernel) in *. set (kw := width kernel) in *.
  set (padded := pad_reflect_1d [] (kh / 2) _).
  assert (Hkh : (kh <= 2 * (kh / 2) + 1)%nat).
  { pose proof (Nat.div_mod_eq kh 2).
    pose proof (Nat.mod_upper_bound kh 2). lia. }
  assert (Hkw : (kw <= 2 * (kw / 2) + 1)%nat).
  { pose proof (Nat.div_mod_eq kw 2).
    pose proof (Nat.mod_upper_bound kw 2). lia. }
  assert (Hlen : length padded = (H + 2 * (kh / 2))%nat)
    by (apply length_padded with (W := W); assumption).
  unfold sum_prod, neighbourhood_sum, window.
  rewrite (@combine_as_map_nth _ _ [] [] _ _ kh).
  2:{ rewrite length_map, length_firstn, length_skipn. lia. }
  2:{ reflexivity. }
  rewrite map_map. apply rsum_ext. intros a Ha.
  apply in_seq in Ha. cbn [fst snd].
  rewrite (nth_indep _ [] (firstn kw (skipn j [])))
    by (rewrite length_map, length_firstn, length_skipn; lia).
  rewrite (map_nth (fun row => firstn kw (skipn j row))).
  rewrite nth_window_row by lia.
  assert (Hrow : length (nth (i + a) padded []) = (W + 2 * (kw / 2))%nat)
    by (apply length_padded_row with (H := H); assumption || lia).
  rewrite (@dot_as_sum _ _ kw).
  2:{ apply length_window_row. lia. }
  2:{ apply (rectangular_row Hkernel). fold kh. lia. }
  apply rsum_ext. intros b Hb. apply in_seq in Hb.
  rewrite nth_window_row by lia.
  fold (cell 0%R padded (i + a) (j + b)).
  unfold padded. rewrite cell_padded with (H := H) (W := W) by (assumption || lia).
  reflexivity.
Qed.

(** Every output cell of [convolve_cells] is the weighted sum of the
    mirrored neighbourhood. *)
Lemma convolve_cells_spec (image kernel : grid R) (H W : nat) :
  rectangular image H W -> (1 <= H)%nat -> (1 <= W)%nat ->
  rectangular kernel (height kernel) (width kernel) ->
  convolve_cells image kernel
  = Some (map (fun i => map (fun j => neighbourhood_sum image kernel i j)
                            (seq 0 W))
              (seq 0 H)).
Proof.
  intros Himage HH HW Hkernel. unfold convolve_cells.
  assert (Hh : height image = H) by apply Himage.
  assert (Hw : width image = W) by (apply (rectangular_width Himage HH)).
  rewrite np_pad_reflect_nonempty by lia.
  rewrite Hh, Hw. f_equal.
  apply map_ext_in. intros i Hi. apply in_seq in Hi.
  apply map_ext_in. intros j Hj. apply in_seq in Hj.
  apply window_sum with (H := H) (W := W); assumption || lia.
Qed.

Lemma grid_sum_cells (kernel : grid R) :
  rectangular kernel (height kernel) (width kernel) ->
  grid_sum kernel
  = rsum (map (fun a =>
                 rsum (map (fun b => cell 0%R kernel a b)
                           (seq 0 (width kernel))))
              (seq 0 (height kernel))).
Proof.
  intros Hk. unfold grid_sum.
  rewrite (list_as_map_nth [] kernel) at 1.
  rewrite map_map. apply rsum_ext. intros a Ha. apply in_seq in Ha.
  rewrite (list_as_map_nth 0%R (nth a kernel [])) at 1.
  rewrite (rectangular_row Hk) by lia.
  reflexivity.
Qed.

Lemma neighbourhood_sum_const (kernel : grid R) (H W i j : nat) (c : R) :
  (1 <= H)%nat -> (1 <= W)%nat ->
  rectangular kernel (height kernel) (width kernel) ->
  neighbourhood_sum (const_grid H W c) kernel i j = (c * grid_sum kernel)%R.
Proof.
  intros HH HW Hk. rewrite (grid_sum_cells Hk).
  unfold neighbourhood_sum. rewrite <- rsum_scale.
  apply rsum_ext. intros a _. rewrite <- rsum_scale.
  apply rsum_ext. intros b _.
  unfold padded_cell.
  pose proof (rectangular_const H W c) as Hc.
  replace (height (const_grid H W c)) with H by (symmetry; apply Hc).
  rewrite (rectangular_width Hc HH).
  rewrite cell_const by (apply reflect_index_lt; assumption).
  reflexivity.
Qed.


Lemma convolve_cells_const (kernel : grid R) (H W : nat) (c : R) :
  (1 <= H)%nat -> (1 <= W)%nat ->
  rectangular kernel (height kernel) (width kernel) ->
  grid_sum kernel = 1%R ->
  convolve_cells (const_grid H W c) kernel = Some (const_grid H W c).
Proof.
  intros HH HW Hk Hsum.
  rewrite (convolve_cells_spec (rectangular_const H W c) HH HW Hk).
  apply f_equal.
  transitivity (map (fun _ : nat => map (fun _ : nat => c) (seq 0 W)) (seq 0 H)).
  - apply map_ext. intros i. apply map_ext. intros j.
    rewrite neighbourhood_sum_const by assumption.
    rewrite Hsum. ring.
  - unfold const_grid. now rewrite !map_seq_const.
Qed.




(** ** Result shape and dtype *)

Lemma convolve_cells_shape (image kernel : grid R) :
  (1 <= height image)%nat -> (1 <= width image)%nat ->
  exists out,
    convolve_cells image kernel = Some out
    /\ rectangular out (height image) (width image).
Proof.
  intros Hh Hw. unfold convolve_cells.
  rewrite np_pad_reflect_nonempty by assumption.
  eexists. split; [reflexivity|]. split.
  - now rewrite length_map, length_seq.
  - apply Forall_map, Forall_forall. intros i _.
    now rewrite length_map, length_seq.
Qed.

Lemma height_map_map (A B : Type) (f : A -> B) (g : grid A) :
  height (map (map f) g) = height g.
Proof. unfold height. apply length_map. Qed.

Lemma width_map_map (A B : Type) (f : A -> B) (g : grid A) :
  width (map (map f) g) = width g.
Proof. unfold width. destruct g; simpl; [reflexivity | apply length_map]. Qed.

Lemma Rtrunc_small (r : R) : (0 <= r < 1)%R -> Rtrunc r = 0%Z.
Proof.
  intros Hr. unfold Rtrunc. destruct (Rle_dec 0 r) as [_|Hn]; [|lra].
  symmetry. apply Int_part_spec. lra.
Qed.



(** The same pixel and kernel at dtype [float64] keep the value 1/2. *)
Lemma convolve_float_keeps_fraction :
  convolve (FloatArr [[1%R]]) [[(1 / 2)%R]] = Some (FloatArr [[(1 / 2)%R]]).
Proof.
  cbv -[Rplus Rmult Rdiv IZR]. repeat (f_equal; try lra).
Qed.

(** ** Kernel shape *)




(** ** Gaussian kernel *)

Lemma gauss_raw_pos (size : nat) (sigma : R) (x y : nat) :
  (0 < sigma)%R -> (0 < gauss_raw size sigma x y)%R.
Proof.
  intros Hs. unfold gauss_raw.
  apply Rmult_lt_0_compat; [|apply exp_pos].
  apply Rdiv_lt_0_compat; [lra|].
  pose proof PI_RGT_0.
  apply Rmult_lt_0_compat; [lra|].
  apply pow_lt. assumption.
Qed.


Lemma gauss_total_pos (size : nat) (sigma : R) :
  (1 <= size)%nat -> (0 < sigma)%R ->
  (0 < grid_sum
         (map (fun x => map (fun y => gauss_raw size sigma x y) (seq 0 size))
              (seq 0 size)))%R.
Proof.
  intros Hsize Hs. unfold grid_sum. rewrite map_map.
  apply rsum_pos.
  - destruct size; [lia | discriminate].
  - apply Forall_map, Forall_forall. intros x _.
    apply rsum_pos.
    + destruct size; [lia | discriminate].
    + apply Forall_map, Forall_forall. intros y _.
      now apply gauss_raw_pos.
Qed.


Lemma gaussian_kernel_rectangular (size : nat) (sigma : R) :
  rectangular (gaussian_kernel size sigma) size size.
Proof.
  unfold gaussian_kernel. split.
  - now rewrite !length_map, length_seq.
  - rewrite map_map. apply Forall_map, Forall_forall. intros x _.
    now rewrite !length_map, length_seq.
Qed.



(** The weights sum to 1. *)
Lemma rsum_div (l : list R) (t : R) :
  rsum (map (fun v => (v / t)%R) l) = (rsum l / t)%R.
Proof.
  induction l as [|v l IH]; simpl; [unfold Rdiv; ring|].
  rewrite IH. unfold Rdiv. ring.
Qed.

Lemma gaussian_kernel_normalised (size : nat) (sigma : R) :
  (1 <= size)%nat -> (0 < sigma)%R ->
  grid_sum (gaussian_kernel size sigma) = 1%R.
Proof.
  intros Hsize Hs. unfold gaussian_kernel.
  pose proof (gauss_total_pos Hsize Hs) as Htotal.
  set (raw := map _ (seq 0 size)) in *.
  set (total := grid_sum raw) in *.
  unfold grid_sum. rewrite map_map.
  rewrite (map_ext _ (fun row => (rsum row / total)%R))
    by (intros row; apply rsum_div).
  rewrite <- (map_map rsum (fun v => (v / total)%R)), rsum_div.
  fold (grid_sum raw). fold total. field. lra.
Qed.

(** ** Worked examples *)

(** The cell left of the border is the mirror image of the cell right of
    it: with all the weight on the left neighbour, output cell 0 of the row
    [1 2 3] is 2 (wrapping would give 3, zero filling 0, edge replication
    1). *)
Lemma convolve_border_is_mirrored :
  convolve (FloatArr [[1; 2; 3]]%R) [[1; 0; 0]]%R
  = Some (FloatArr [[2; 1; 2]]%R).
Proof.
  cbv -[Rplus Rmult IZR]. repeat (f_equal; try lra).
Qed.

Lemma neighbourhood_sum_two_pixels (a b c d e f g h i : R) :
  neighbourhood_sum [[0; 1]]%R [[a; b; c]; [d; e; f]; [g; h; i]] 0 0
  = (a + c + d + f + g + i)%R.
Proof.
  cbv -[Rplus Rmult IZR]. lra.
Qed.

(** Gaussian smoothing (size 3, sigma 1) of the [uint8] row [0 1]: the real
    weighted sum at cell 0 lies strictly between 0 and 1, the [float64]
    result keeps it, the [uint8] result stores 0. *)
Lemma gaussian_blur_uint8_drops_fraction :
  exists (out : grid Z) (outf : grid R),
    gaussian_blur (IntArr UInt8 [[0; 1]]%Z) 3 1 = Some (IntArr UInt8 out)
    /\ gaussian_blur (FloatArr [[0; 1]]%R) 3 1 = Some (FloatArr outf)
    /\ cell 0%Z out 0 0 = 0%Z
    /\ (0 < cell 0%R outf 0 0 < 1)%R.
Proof.
  assert (Hs : (0 < 1)%R) by lra.
  pose proof (@gauss_total_pos 3 1%R ltac:(lia) Hs) as Ht.
  assert (Hpos : forall x y, (0 < gauss_raw 3 1 x y)%R)
    by (intros; now apply gauss_raw_pos).
  assert (Himg : rectangular [[0; 1]]%R 1 2)
    by (split; [reflexivity | repeat constructor]).
  assert (Hsum : (0 < neighbourhood_sum [[0; 1]]%R (gaussian_kernel 3 1) 0 0 < 1)%R).
  { unfold gaussian_kernel. cbn [seq map] in *.
    set (t := grid_sum _) in *.
    rewrite neighbourhood_sum_two_pixels.
    assert (Et : t = (gauss_raw 3 1 0 0 + gauss_raw 3 1 0 1 + gauss_raw 3 1 0 2
                      + gauss_raw 3 1 1 0 + gauss_raw 3 1 1 1 + gauss_raw 3 1 1 2
                      + gauss_raw 3 1 2 0 + gauss_raw 3 1 2 1
                      + gauss_raw 3 1 2 2)%R).
    { unfold t, grid_sum, rsum. cbn [map fold_right]. ring. }
    pose proof (Hpos 0 0)%nat. pose proof (Hpos 0 1)%nat.
    pose proof (Hpos 0 2)%nat. pose proof (Hpos 1 0)%nat.
    pose proof (Hpos 1 1)%nat. pose proof (Hpos 1 2)%nat.
    pose proof (Hpos 2 0)%nat. pose proof (Hpos 2 1)%nat.
    pose proof (Hpos 2 2)%nat.
    replace (gauss_raw 3 1 0 0 / t + gauss_raw 3 1 0 2 / t
             + gauss_raw 3 1 1 0 / t + gauss_raw 3 1 1 2 / t
             + gauss_raw 3 1 2 0 / t + gauss_raw 3 1 2 2 / t)%R
      with ((gauss_raw 3 1 0 0 + gauss_raw 3 1 0 2 + gauss_raw 3 1 1 0
             + gauss_raw 3 1 1 2 + gauss_raw 3 1 2 0 + gauss_raw 3 1 2 2)
            / t)%R by (field; lra).
    split.
    - apply Rdiv_lt_0_compat; lra.
    - apply (Rmult_lt_reg_r t); [exact Ht|].
      unfold Rdiv. rewrite Rmult_assoc, Rinv_l by lra. lra. }
  assert (Hk : rectangular (gaussian_kernel 3 1)
                           (height (gaussian_kernel 3 1))
                           (width (gaussian_kernel 3 1)))
    by (split; [reflexivity | repeat constructor]).
  eexists. eexists. split; [|split; [|split]].
  - unfold gaussian_blur, convolve.
    change (map (map IZR) [[0; 1]]%Z) with [[0; 1]]%R.
    rewrite (convolve_cells_spec Himg (le_n 1) (le_S _ _ (le_n 1)) Hk).
    reflexivity.
  - unfold gaussian_blur, convolve.
    rewrite (convolve_cells_spec Himg (le_n 1) (le_S _ _ (le_n 1)) Hk).
    reflexivity.
  - cbn [seq map cell nth]. unfold cast_int.
    rewrite Rtrunc_small by lra. reflexivity.
  - cbn [seq map cell nth]. exact Hsum.
Qed.

End ConvFacts.

(* ================================================================== *)
(** * FAST candidate detector *)
(* ================================================================== *)

Module FastFacts.
Import Np Fast.
Local Open Scope Z_scope.

Lemma circle_walk_flags (image : grid Z) (y x threshold : Z)
      (circle : list (Z * Z)) (count : nat) :
  circle_walk image y x threshold circle count
  = walk (map (fun d => differs (pixel image y x) threshold
                                (pixel image (y + fst d) (x + snd d)))
              circle)
         count.
Proof.
  revert count. induction circle as [|[dy dx] rest IH]; intros count.
  - reflexivity.
  - cbn [circle_walk map walk fst snd]. unfold differs at 1.
    destruct (is_brighter _ _ _ || is_darker _ _ _).
    + destruct (12 <=? S count)%nat; [reflexivity | apply IH].
    + apply IH.
Qed.

Lemma all_flags_complete (n : nat) (l : list bool) :
  length l = n -> In l (all_flags n).
Proof.
  revert l. induction n as [|n IH]; intros l Hl.
  - destruct l; [now left | discriminate].
  - destruct l as [|b l]; [discriminate|].
    cbn [all_flags]. apply in_flat_map. exists l. split.
    + apply IH. now injection Hl.
    + destruct b; cbn; auto.
Qed.

Lemma walk_all_flags :
  forallb (fun l => Bool.eqb (walk l 0) (linear_run12 l)) (all_flags 16) = true.
Proof. vm_compute. reflexivity. Qed.

(** On 16 flags the walk succeeds exactly when 12 consecutive flags of the
    list are set. *)
Lemma walk_linear_run12 (flags : list bool) :
  length flags = 16%nat -> walk flags 0 = linear_run12 flags.
Proof.
  intros Hlen. apply all_flags_complete in Hlen.
  pose proof walk_all_flags as Hall.
  rewrite forallb_forall in Hall.
  apply Bool.eqb_prop, Hall, Hlen.
Qed.

(** What the detector computes for a pixel: the cardinal pre-filter, then
    a run of 12 consecutive differing samples between index 0 and 15. *)
Lemma accepts_linear_run (image : grid Z) (y x threshold : Z) :
  accepts image y x threshold
  = passes_prefilter image y x threshold
    && has_linear_run12 image y x threshold.
Proof.
  unfold accepts, has_linear_run12.
  destruct (passes_prefilter image y x threshold); [|reflexivity].
  rewrite circle_walk_flags. cbn [andb].
  unfold circle_samples. rewrite map_map.
  apply walk_linear_run12. now rewrite length_map.
Qed.

(** Every keypoint returned is an interior pixel accepted by the test, and
    conversely. *)
Lemma detect_fast_int32_In (image : grid Z) (threshold x y : Z) :
  In (x, y) (detect_fast_int32 image threshold)
  <-> 3 <= y < Z.of_nat (height image) - 3
      /\ 3 <= x < Z.of_nat (width image) - 3
      /\ accepts image y x threshold = true.
Proof.
  unfold detect_fast_int32, py_range. split.
  - intros Hin. apply in_flat_map in Hin. destruct Hin as [y' [Hy Hin]].
    apply in_flat_map in Hin. destruct Hin as [x' [Hx Hin]].
    apply in_map_iff in Hy. destruct Hy as [ky [<- Hky]].
    apply in_map_iff in Hx. destruct Hx as [kx [<- Hkx]].
    apply in_seq in Hky. apply in_seq in Hkx.
    destruct (accepts image (3 + Z.of_nat ky) (3 + Z.of_nat kx) threshold) eqn:E;
      [|contradiction].
    destruct Hin as [Heq|[]].
    pose proof (f_equal fst Heq) as Hx'. pose proof (f_equal snd Heq) as Hy'.
    cbn [fst snd] in Hx', Hy'. subst x y.
    split; [lia|]. split; [lia|]. exact E.
  - intros [Hy [Hx Hacc]].
    apply in_flat_map. exists y. split.
    + apply in_map_iff. exists (Z.to_nat (y - 3)). split; [lia|].
      apply in_seq. lia.
    + apply in_flat_map. exists x. split.
      * apply in_map_iff. exists (Z.to_nat (x - 3)). split; [lia|].
        apply in_seq. lia.
      * rewrite Hacc. now left.
Qed.

(** C1.  The detector does not implement the specified acceptance rule.
    At the centre of [wrap_arc_image] (threshold 30) the pre-filter passes
    and 12 contiguous brighter samples lie on the circle, but the arc runs
    through index 0 and the pixel is rejected.  At the centre of
    [mixed_polarity_image] the pre-filter passes and no arc of 12 samples
    has one polarity, but brighter and darker samples are counted in one
    run and the pixel is accepted. *)
Theorem detect_fast_arc_rule_violated :
  (passes_prefilter wrap_arc_image 3 3 30 = true
   /\ has_arc12 wrap_arc_image 3 3 30 = true
   /\ accepts wrap_arc_image 3 3 30 = false
   /\ detect_fast (IntArr UInt8 wrap_arc_image) 30 = [])
  /\ (passes_prefilter mixed_polarity_image 3 3 30 = true
      /\ has_arc12 mixed_polarity_image 3 3 30 = false
      /\ accepts mixed_polarity_image 3 3 30 = true
      /\ detect_fast (IntArr UInt8 mixed_polarity_image) 30 = [(3, 3)]).
Proof.
  repeat split; vm_compute; reflexivity.
Qed.

End FastFacts.

(* ================================================================== *)
(** * Harris corner filter *)
(* ================================================================== *)

Module HarrisFacts.
Import Np NpFacts Conv ConvFacts Harris.

Lemma rectangular_tabulate (A : Type) (f : nat -> nat -> A) (h w : nat) :
  rectangular (map (fun i => map (fun j => f i j) (seq 0 w)) (seq 0 h)) h w.
Proof.
  split.
  - now rewrite length_map, length_seq.
  - apply Forall_map, Forall_forall. intros i _.
    now rewrite length_map, length_seq.
Qed.

Lemma gradient_axis1_shape (image : grid R) (H W : nat) :
  rectangular image H W -> (1 <= H)%nat -> (2 <= W)%nat ->
  exists Ix, gradient_axis1 image = Some Ix /\ rectangular Ix H W.
Proof.
  intros Hr HH HW. unfold gradient_axis1.
  rewrite (rectangular_width Hr HH).
  replace (height image) with H by (symmetry; apply Hr).
  destruct (Nat.ltb_spec W 2); [lia|].
  eexists. split; [reflexivity | apply rectangular_tabulate].
Qed.

Lemma gradient_axis0_shape (image : grid R) (H W : nat) :
  rectangular image H W -> (2 <= H)%nat ->
  exists Iy, gradient_axis0 image = Some Iy /\ rectangular Iy H W.
Proof.
  intros Hr HH. unfold gradient_axis0.
  rewrite (rectangular_width Hr) by lia.
  replace (height image) with H by (symmetry; apply Hr).
  destruct (Nat.ltb_spec H 2); [lia|].
  eexists. split; [reflexivity | apply rectangular_tabulate].
Qed.

Lemma grid_mul_shape (a b : grid R) (H W : nat) :
  rectangular a H W -> rectangular b H W -> rectangular (grid_mul a b) H W.
Proof.
  intros [Ha Hra] [Hb Hrb]. unfold grid_mul. split.
  - rewrite length_map, length_combine. lia.
  - apply Forall_map, Forall_forall. intros [u v] Hin. cbn [fst snd].
    rewrite length_map, length_combine.
    rewrite Forall_forall in Hra, Hrb.
    rewrite (Hra u) by (eapply in_combine_l; eassumption).
    rewrite (Hrb v) by (eapply in_combine_r; eassumption).
    lia.
Qed.

Lemma gaussian_blur_float_shape (g : grid R) (H W size : nat) (sigma : R) :
  rectangular g H W -> (1 <= H)%nat -> (1 <= W)%nat ->
  exists out,
    gaussian_blur (FloatArr g) size sigma = Some (FloatArr out)
    /\ rectangular out H W.
Proof.
  intros Hr HH HW. unfold gaussian_blur, convolve.
  assert (Hh : height g = H) by apply Hr.
  assert (Hw : width g = W) by (apply (rectangular_width Hr HH)).
  destruct (@convolve_cells_shape g (gaussian_kernel size sigma))
    as [out [Hout Hshape]]; [lia | lia |].
  rewrite Hout. cbn [option_map]. exists out. split; [reflexivity|].
  now rewrite Hh, Hw in Hshape.
Qed.

Lemma structure_tensor_shape (image : ndarray) (H W : nat) :
  rectangular (as_real image) H W -> (2 <= H)%nat -> (2 <= W)%nat ->
  exists Ixx Iyy Ixy,
    structure_tensor image = Some (Ixx, Iyy, Ixy)
    /\ rectangular Ixx H W /\ rectangular Iyy H W /\ rectangular Ixy H W.
Proof.
  intros Hr HH HW. unfold structure_tensor.
  destruct (gradient_axis1_shape Hr) as [Ix [-> HIx]]; [lia | lia |].
  destruct (gradient_axis0_shape Hr) as [Iy [-> HIy]]; [lia|].
  destruct (@gaussian_blur_float_shape (grid_mul Ix Ix) H W 5 1)
    as [Sxx [-> Hxx]]; [now apply grid_mul_shape | lia | lia |].
  destruct (@gaussian_blur_float_shape (grid_mul Iy Iy) H W 5 1)
    as [Syy [-> Hyy]]; [now apply grid_mul_shape | lia | lia |].
  destruct (@gaussian_blur_float_shape (grid_mul Ix Iy) H W 5 1)
    as [Sxy [-> Hxy]]; [now apply grid_mul_shape | lia | lia |].
  cbn [as_real]. now exists Sxx, Syy, Sxy.
Qed.

Lemma getitem_in_range (a : grid R) (H W : nat) (y x : Z) :
  rectangular a H W ->
  (0 <= y < Z.of_nat H)%Z -> (0 <= x < Z.of_nat W)%Z ->
  getitem a y x = Some (cell 0%R a (Z.to_nat y) (Z.to_nat x)).
Proof.
  intros Hr Hy Hx. unfold getitem, np_index.
  replace (height a) with H by (symmetry; apply Hr).
  rewrite (rectangular_width Hr) by lia.
  destruct (Z.leb_spec 0 y); [|lia].
  destruct (Z.ltb_spec y (Z.of_nat H)); [|lia].
  destruct (Z.leb_spec 0 x); [|lia].
  destruct (Z.ltb_spec x (Z.of_nat W)); [|lia].
  reflexivity.
Qed.

Section Loop.
Variables (Ixx Iyy Ixy : grid R) (H W : nat) (k threshold : R).
Hypothesis Hxx : rectangular Ixx H W.
Hypothesis Hyy : rectangular Iyy H W.
Hypothesis Hxy : rectangular Ixy H W.

Lemma response_in_bounds (p : Z * Z) :
  in_bounds H W p ->
  response Ixx Iyy Ixy k (fst p) (snd p)
  = Some (response_at Ixx Iyy Ixy k p).
Proof.
  intros [Hx Hy]. unfold response, response_at.
  rewrite (getitem_in_range Hxx Hy Hx), (getitem_in_range Hyy Hy Hx),
    (getitem_in_range Hxy Hy Hx).
  reflexivity.
Qed.

(** The loop keeps, in order, the candidates whose response exceeds the
    threshold, each with its response. *)
Lemma filter_loop_spec (keypoints : list (Z * Z)) :
  Forall (in_bounds H W) keypoints ->
  filter_loop Ixx Iyy Ixy k threshold keypoints
  = Some (map (fun p => (p, response_at Ixx Iyy Ixy k p))
              (filter (fun p => above threshold (response_at Ixx Iyy Ixy k p))
                      keypoints)).
Proof.
  induction 1 as [|[x y] rest Hp Hrest IH]; [reflexivity|].
  cbn [filter_loop filter].
  rewrite (response_in_bounds Hp : response _ _ _ _ x y = _), IH.
  unfold above.
  destruct (Rgt_dec (response_at Ixx Iyy Ixy k (x, y)) threshold);
    reflexivity.
Qed.
End Loop.

(** ** The sort *)

Lemma insert_desc_perm (p : scored) (l : list scored) :
  Permutation (insert_desc p l) (p :: l).
Proof.
  induction l as [|q l IH]; cbn [insert_desc]; [reflexivity|].
  destruct (Rlt_dec (score p) (score q)).
  - rewrite IH. apply perm_swap.
  - reflexivity.
Qed.

Lemma sorted_desc_perm (l : list scored) : Permutation (sorted_desc l) l.
Proof.
  induction l as [|p l IH]; cbn [sorted_desc fold_right]; [reflexivity|].
  fold (sorted_desc l). rewrite insert_desc_perm. now constructor.
Qed.

Lemma insert_desc_sorted (p : scored) (l : list scored) :
  StronglySorted desc l -> StronglySorted desc (insert_desc p l).
Proof.
  induction 1 as [|q l Hsorted IH Hq]; cbn [insert_desc].
  - repeat constructor.
  - destruct (Rlt_dec (score p) (score q)) as [Hlt|Hge].
    + constructor; [assumption|].
      rewrite Forall_forall in Hq |- *. intros r Hr.
      apply (Permutation_in _ (insert_desc_perm p l)) in Hr.
      destruct Hr as [<-|Hr]; [unfold desc; lra | now apply Hq].
    + constructor; [now constructor|].
      constructor; [unfold desc; lra|].
      rewrite Forall_forall in Hq |- *. intros r Hr.
      specialize (Hq r Hr). unfold desc in *. lra.
Qed.

Lemma sorted_desc_sorted (l : list scored) : StronglySorted desc (sorted_desc l).
Proof.
  induction l as [|p l IH]; cbn [sorted_desc fold_right]; [constructor|].
  now apply insert_desc_sorted.
Qed.

(** C6.  For an image of at least 2x2 pixels and candidates that are pixel
    coordinates of it, [harris_detector] returns the points of a ranked
    list that (1) consists of exactly the candidates whose response
    [det - k * trace^2], read from the smoothed second-moment arrays at the
    candidate, is strictly above the threshold, each once per occurrence,
    and (2) is in descending order of response; the responses are not part
    of the result. *)
Theorem harris_detector_filters_and_ranks
        (image : ndarray) (keypoints : list (Z * Z)) (k threshold : R)
        (H W : nat) :
  rectangular (as_real image) H W -> (2 <= H)%nat -> (2 <= W)%nat ->
  Forall (in_image image) keypoints ->
  exists Ixx Iyy Ixy (ranked : list scored),
    structure_tensor image = Some (Ixx, Iyy, Ixy)
    /\ harris_detector image keypoints k threshold = Some (map point ranked)
    /\ Permutation ranked
         (map (fun p => (p, response_at Ixx Iyy Ixy k p))
              (filter (fun p => above threshold (response_at Ixx Iyy Ixy k p))
                      keypoints))
    /\ StronglySorted (fun p q => (score q <= score p)%R) ranked.
Proof.
  intros Hr HH HW Hkps.
  destruct (structure_tensor_shape image Hr HH HW)
    as [Ixx [Iyy [Ixy [Ht [Hxx [Hyy Hxy]]]]]].
  assert (Hb : Forall (in_bounds H W) keypoints).
  { eapply Forall_impl; [|exact Hkps]. intros p [Hx Hy]. split.
    - now rewrite (rectangular_width Hr) in Hx by lia.
    - replace (height (as_real image)) with H in Hy by (symmetry; apply Hr).
      exact Hy. }
  exists Ixx, Iyy, Ixy.
  eexists. split; [exact Ht|]. split; [|split].
  - unfold harris_detector. rewrite Ht.
    rewrite (filter_loop_spec k threshold Hxx Hyy Hxy Hb). reflexivity.
  - apply sorted_desc_perm.
  - apply sorted_desc_sorted.
Qed.

Lemma harris_detector_filters_and_ranks_witness :
  exists ranked : list scored,
    harris_detector (IntArr UInt8 [[1; 2]; [3; 4]]%Z) [(0, 1); (1, 1)]%Z
                    default_k default_threshold
    = Some (map point ranked)
    /\ StronglySorted (fun p q => (score q <= score p)%R) ranked.
Proof.
  assert (Hr : rectangular (as_real (IntArr UInt8 [[1; 2]; [3; 4]]%Z)) 2 2)
    by (split; [reflexivity | repeat constructor]).
  assert (Hkps : Forall (in_image (IntArr UInt8 [[1; 2]; [3; 4]]%Z))
                        [(0, 1); (1, 1)]%Z)
    by (repeat constructor; simpl; lia).
  destruct (@harris_detector_filters_and_ranks
              (IntArr UInt8 [[1; 2]; [3; 4]]%Z) [(0, 1); (1, 1)]%Z
              default_k default_threshold 2 2 Hr (le_n 2) (le_n 2) Hkps)
    as [Ixx [Iyy [Ixy [ranked [_ [Hout [_ Hsorted]]]]]]].
  exists ranked. split; [exact Hout | exact Hsorted].
Defined.

End HarrisFacts.

(* ================================================================== *)
(** * Orientation estimator *)
(* ================================================================== *)

Module OrientFacts.
Import Np NpFacts Orient.
Local Open Scope Z_scope.

(** A slice of [2 * radius + 1] positions around a non-negative coordinate
    has full length exactly when it lies inside the axis. *)
Lemma slice_len_full (n c radius : Z) :
  0 <= n -> 0 <= c -> 0 <= radius ->
  slice_len n (c - radius) (c + radius + 1) = 2 * radius + 1
  <-> radius <= c /\ c + radius < n.
Proof.
  intros Hn Hc Hr. unfold slice_len, slice_bound.
  destruct (Z.ltb_spec (c + radius + 1) 0);
    destruct (Z.ltb_spec (c - radius) 0); lia.
Qed.

Lemma slice_len_nonneg (n start stop : Z) : 0 <= slice_len n start stop.
Proof. unfold slice_len. lia. Qed.

Lemma odd_patch_size (patch_size : Z) :
  Z.odd patch_size = true -> patch_size = 2 * (patch_size / 2) + 1.
Proof.
  intros Hodd. rewrite (Z.div_mod patch_size 2) at 1 by lia.
  rewrite Zmod_odd, Hodd. reflexivity.
Qed.

(** For a pixel coordinate the shape test of the source is the geometric
    condition that the patch fits in the grid. *)
Lemma full_patch_fits (image : grid Z) (patch_size : Z) (kp : Z * Z) :
  Z.odd patch_size = true -> pixel_coordinate kp ->
  full_patch image (fst kp) (snd kp) patch_size = true
  <-> 0 < patch_size /\ patch_fits image (patch_size / 2) kp.
Proof.
  intros Hodd [Hx Hy].
  pose proof (odd_patch_size _ Hodd) as Hps.
  unfold full_patch, patch_shape, patch_fits.
  set (radius := patch_size / 2) in *.
  rewrite andb_true_iff, !Z.eqb_eq.
  destruct (Z_lt_le_dec radius 0) as [Hneg|Hpos].
  - pose proof (slice_len_nonneg (Z.of_nat (height image))
                  (snd kp - radius) (snd kp + radius + 1)).
    lia.
  - rewrite Hps at 1 2.
    rewrite !slice_len_full by lia. lia.
Qed.

Lemma orientation_of_odd (image : grid Z) (patch_size : Z) (kp : Z * Z) :
  Z.odd patch_size = true ->
  orientation_of image patch_size kp
  = Some (orientation_value image patch_size kp).
Proof.
  intros Hodd. unfold orientation_of, orientation_value.
  destruct kp as [x y]. cbn [fst snd].
  rewrite <- Z.negb_odd, Hodd. cbn [negb andb].
  destruct (full_patch image x y patch_size); reflexivity.
Qed.

Lemma calculate_orientation_map (image : grid Z) (keypoints : list (Z * Z))
      (patch_size : Z) :
  Z.odd patch_size = true ->
  calculate_orientation image keypoints patch_size
  = Some (map (orientation_value image patch_size) keypoints).
Proof.
  intros Hodd. induction keypoints as [|kp rest IH]; [reflexivity|].
  cbn [calculate_orientation map].
  now rewrite orientation_of_odd, IH.
Qed.

(** C8.  For an odd patch size the estimator returns one value per
    keypoint, in keypoint order (the [i]-th value is computed from the
    [i]-th keypoint alone); a keypoint at a pixel coordinate whose patch
    does not fit in the grid gets the value 0. *)
Theorem calculate_orientation_aligned
        (image : grid Z) (keypoints : list (Z * Z)) (patch_size : Z) :
  Z.odd patch_size = true ->
  Forall pixel_coordinate keypoints ->
  exists orientations : list R,
    calculate_orientation image keypoints patch_size = Some orientations
    /\ length orientations = length keypoints
    /\ (forall i kp,
           nth_error keypoints i = Some kp ->
           nth_error orientations i
           = Some (orientation_value image patch_size kp))
    /\ (forall i kp,
           nth_error keypoints i = Some kp ->
           ~ patch_fits image (patch_size / 2) kp ->
           nth_error orientations i = Some 0%R).
Proof.
  intros Hodd Hkps.
  exists (map (orientation_value image patch_size) keypoints).
  split; [now apply calculate_orientation_map|].
  split; [apply length_map|].
  assert (Hnth : forall i kp,
             nth_error keypoints i = Some kp ->
             nth_error (map (orientation_value image patch_size) keypoints) i
             = Some (orientation_value image patch_size kp)).
  { intros i kp Hi. rewrite nth_error_map, Hi. reflexivity. }
  split; [exact Hnth|].
  intros i kp Hi Hfit. rewrite (Hnth i kp Hi). f_equal.
  unfold orientation_value.
  destruct (full_patch image (fst kp) (snd kp) patch_size) eqn:Hfull;
    [|reflexivity].
  exfalso. apply Hfit.
  assert (Hpix : pixel_coordinate kp).
  { rewrite Forall_forall in Hkps. apply Hkps.
    eapply nth_error_In; eassumption. }
  destruct (@full_patch_fits image patch_size kp Hodd Hpix) as [Hto _].
  apply Hto, Hfull.
Qed.

Lemma calculate_orientation_aligned_witness :
  exists orientations : list R,
    calculate_orientation blob_right [(1, 1); (0, 2)] 3 = Some orientations
    /\ length orientations = 2%nat
    /\ nth_error orientations 1 = Some 0%R.
Proof.
  assert (Hodd : Z.odd 3 = true) by reflexivity.
  assert (Hkps : Forall pixel_coordinate [(1, 1); (0, 2)])
    by (repeat constructor; simpl; lia).
  destruct (@calculate_orientation_aligned blob_right [(1, 1); (0, 2)] 3
              Hodd Hkps)
    as [orientations [Hsome [Hlen [_ Hsentinel]]]].
  exists orientations. split; [exact Hsome|]. split; [exact Hlen|].
  apply (Hsentinel 1%nat (0, 2)); [reflexivity|].
  unfold patch_fits. simpl. lia.
Defined.

(** ** The moments *)

Lemma atan2_pos_zero (y : R) : (0 < y)%R -> atan2 y 0 = (PI / 2)%R.
Proof.
  intros Hy. unfold atan2.
  destruct (Rlt_dec 0 0) as [H|_]; [lra|].
  destruct (Rlt_dec 0 0) as [H|_]; [lra|].
  destruct (Rlt_dec 0 y) as [_|H]; [reflexivity | lra].
Qed.

Lemma atan2_zero_pos (x : R) : (0 < x)%R -> atan2 0 x = 0%R.
Proof.
  intros Hx. unfold atan2.
  destruct (Rlt_dec 0 x) as [_|H]; [|lra].
  unfold Rdiv. rewrite Rmult_0_l. apply atan_0.
Qed.

Lemma zsum_ext (B : Type) (f g : B -> Z) (l : list B) :
  (forall x, In x l -> f x = g x) -> zsum (map f l) = zsum (map g l).
Proof.
  intros H. f_equal. now apply map_ext_in.
Qed.

Lemma length_arange (lo hi : Z) : length (arange lo hi) = Z.to_nat (hi - lo).
Proof.
  unfold arange, py_range. now rewrite length_map, length_seq.
Qed.

Lemma nth_arange (lo hi : Z) (k : nat) :
  (k < Z.to_nat (hi - lo))%nat -> nth k (arange lo hi) 0 = lo + Z.of_nat k.
Proof.
  intros Hk. unfold arange, py_range.
  now rewrite (nth_map_seq (fun k => lo + Z.of_nat k) 0 Hk).
Qed.

(** On a square patch of side [2 * radius + 1] the quantity the source
    calls [m10] is the moment weighted by the row offset, and the one it
    calls [m01] the moment weighted by the column offset. *)
Lemma moments_swapped (patch : grid Z) (radius : Z) :
  0 <= radius ->
  rectangular patch (Z.to_nat (2 * radius + 1)) (Z.to_nat (2 * radius + 1)) ->
  m10 patch radius = spec_m01 patch radius
  /\ m01 patch radius = spec_m10 patch radius.
Proof.
  intros Hr Hpatch.
  set (n := Z.to_nat (2 * radius + 1)) in *.
  assert (Hn : (1 <= n)%nat) by (unfold n; lia).
  assert (Hlen : length (arange (- radius) (radius + 1)) = n).
  { rewrite length_arange. unfold n. f_equal. lia. }
  assert (Hh : height patch = n) by apply Hpatch.
  assert (Hw : width patch = n)
    by (apply (ConvFacts.rectangular_width Hpatch Hn)).
  assert (Hnth : forall k, (k < n)%nat ->
             nth k (arange (- radius) (radius + 1)) 0 = Z.of_nat k - radius).
  { intros k Hk. rewrite nth_arange; [lia|].
    unfold n in Hk. lia. }
  split.
  - unfold m10, spec_m01. rewrite Hh, Hw.
    rewrite (@combine_as_map_nth _ _ [] 0 _ _ n) by (assumption || apply Hpatch).
    rewrite map_map. apply zsum_ext. intros a Ha. apply in_seq in Ha.
    cbn [fst snd]. rewrite Hnth by lia.
    rewrite (list_as_map_nth 0 (nth a patch [])) at 1.
    rewrite (ConvFacts.rectangular_row Hpatch) by lia.
    rewrite map_map. reflexivity.
  - unfold m01, spec_m10. rewrite Hh, Hw.
    rewrite (list_as_map_nth [] patch) at 1.
    replace (length patch) with n by (symmetry; apply Hpatch).
    rewrite map_map. apply zsum_ext. intros a Ha. apply in_seq in Ha.
    rewrite (@combine_as_map_nth _ _ 0 0 _ _ n);
      [| apply (ConvFacts.rectangular_row Hpatch); lia | assumption].
    rewrite map_map. apply zsum_ext. intros b Hb. apply in_seq in Hb.
    cbn [fst snd]. rewrite Hnth by lia. reflexivity.
Qed.

Lemma length_py_slice (A : Type) (l : list A) (start stop : Z) :
  length (py_slice l start stop)
  = Z.to_nat (slice_len (Z.of_nat (length l)) start stop).
Proof.
  unfold py_slice. rewrite length_firstn, length_skipn.
  unfold slice_len, slice_bound.
  destruct (Z.ltb_spec stop 0); destruct (Z.ltb_spec start 0); lia.
Qed.

Lemma In_py_slice (A : Type) (l : list A) (start stop : Z) (a : A) :
  In a (py_slice l start stop) -> In a l.
Proof.
  unfold py_slice. intros Hin.
  set (s := Z.to_nat (slice_bound (Z.of_nat (length l)) start)) in *.
  set (k := Z.to_nat (slice_len (Z.of_nat (length l)) start stop)) in *.
  rewrite <- (firstn_skipn s l). apply in_or_app. right.
  rewrite <- (firstn_skipn k (skipn s l)). apply in_or_app. now left.
Qed.

(** A patch that passes the shape test is a square array. *)
Lemma extract_patch_rectangular (image : grid Z) (H W : nat)
      (x y patch_size : Z) :
  rectangular image H W -> (1 <= H)%nat ->
  full_patch image x y patch_size = true ->
  rectangular (extract_patch image x y (patch_size / 2))
              (Z.to_nat patch_size) (Z.to_nat patch_size).
Proof.
  intros Himage HH Hfull. unfold full_patch, patch_shape in Hfull.
  apply andb_true_iff in Hfull. rewrite !Z.eqb_eq in Hfull.
  destruct Hfull as [Hrows Hcols].
  rewrite (ConvFacts.rectangular_width Himage HH) in Hcols.
  unfold extract_patch. split.
  - rewrite length_map, length_py_slice. fold (height image).
    now rewrite Hrows.
  - apply Forall_map, Forall_forall. intros row Hrow.
    apply In_py_slice in Hrow.
    rewrite length_py_slice.
    destruct Himage as [_ Hall]. rewrite Forall_forall in Hall.
    rewrite (Hall row Hrow). now rewrite Hcols.
Qed.

(** The value the estimator appends for a keypoint with a full patch is the
    angle of the vector (row moment, column moment): the two arguments of
    [atan2] are exchanged with respect to the specified moments. *)
Lemma orientation_value_swapped (image : grid Z) (H W : nat)
      (patch_size : Z) (kp : Z * Z) :
  rectangular image H W -> (1 <= H)%nat ->
  Z.odd patch_size = true ->
  full_patch image (fst kp) (snd kp) patch_size = true ->
  let patch := extract_patch image (fst kp) (snd kp) (patch_size / 2) in
  orientation_value image patch_size kp
  = atan2 (IZR (spec_m10 patch (patch_size / 2)))
          (IZR (spec_m01 patch (patch_size / 2))).
Proof.
  intros Himage HH Hodd Hfull patch.
  unfold orientation_value. rewrite Hfull. fold patch.
  pose proof (extract_patch_rectangular _ _ _ Himage HH Hfull) as Hrect.
  fold patch in Hrect.
  pose proof (odd_patch_size _ Hodd) as Hps.
  assert (Hpos : 0 <= patch_size / 2).
  { unfold full_patch, patch_shape in Hfull.
    apply andb_true_iff in Hfull. rewrite !Z.eqb_eq in Hfull.
    pose proof (slice_len_nonneg (Z.of_nat (height image))
                  (snd kp - patch_size / 2) (snd kp + patch_size / 2 + 1)).
    lia. }
  rewrite Hps in Hrect at 1 2.
  destruct (moments_swapped Hpos Hrect) as [-> ->].
  reflexivity.
Qed.

(** C2.  The estimator does not compute the moments the specification
    describes: the weight vector of [m10] is laid out as a column and that
    of [m01] as a row, so [m10] weighs by the row offset and [m01] by the
    column offset.  For a blob exactly right of the centre (3x3 patch, and
    the default 31x31 patch) the specified moments are [m10 > 0],
    [m01 = 0] and the specified angle is 0; the code returns pi/2, which
    is more than 3/2. *)
Theorem calculate_orientation_moments_swapped :
  (m10 (extract_patch blob_right 1 1 1) 1 = 0
   /\ m01 (extract_patch blob_right 1 1 1) 1 = 9
   /\ spec_m10 (extract_patch blob_right 1 1 1) 1 = 9
   /\ spec_m01 (extract_patch blob_right 1 1 1) 1 = 0
   /\ atan2 (IZR (spec_m01 (extract_patch blob_right 1 1 1) 1))
            (IZR (spec_m10 (extract_patch blob_right 1 1 1) 1)) = 0%R
   /\ calculate_orientation blob_right [(1, 1)] 3 = Some [(PI / 2)%R])
  /\ (spec_m10 (extract_patch (blob_right_of 15 5 200) 15 15 15) 15 = 1000
      /\ spec_m01 (extract_patch (blob_right_of 15 5 200) 15 15 15) 15 = 0
      /\ calculate_orientation (blob_right_of 15 5 200) [(15, 15)] 31
         = Some [(PI / 2)%R])
  /\ (3 / 2 < PI / 2)%R.
Proof.
  assert (E1 : m10 (extract_patch blob_right 1 1 1) 1 = 0)
    by (vm_compute; reflexivity).
  assert (E2 : m01 (extract_patch blob_right 1 1 1) 1 = 9)
    by (vm_compute; reflexivity).
  assert (E3 : spec_m10 (extract_patch blob_right 1 1 1) 1 = 9)
    by (vm_compute; reflexivity).
  assert (E4 : spec_m01 (extract_patch blob_right 1 1 1) 1 = 0)
    by (vm_compute; reflexivity).
  assert (F1 : m10 (extract_patch (blob_right_of 15 5 200) 15 15 15) 15 = 0)
    by (vm_compute; reflexivity).
  assert (F2 : m01 (extract_patch (blob_right_of 15 5 200) 15 15 15) 15 = 1000)
    by (vm_compute; reflexivity).
  split; [|split].
  - repeat split; try assumption.
    + rewrite E3, E4. apply atan2_zero_pos. lra.
    + rewrite calculate_orientation_map by reflexivity.
      cbn [map]. unfold orientation_value. cbn [fst snd].
      replace (full_patch blob_right 1 1 3) with true
        by (vm_compute; reflexivity).
      change (3 / 2) with 1.
      rewrite E1, E2. rewrite atan2_pos_zero by lra. reflexivity.
  - repeat split; try (vm_compute; reflexivity).
    rewrite calculate_orientation_map by reflexivity.
    cbn [map]. unfold orientation_value. cbn [fst snd].
    replace (full_patch (blob_right_of 15 5 200) 15 15 31) with true
      by (vm_compute; reflexivity).
    change (31 / 2) with 15.
    rewrite F1, F2. rewrite atan2_pos_zero by lra. reflexivity.
  - exact PI2_3_2.
Qed.

End OrientFacts.

(* ================================================================== *)
(** * BRIEF descriptor generator *)
(* ================================================================== *)

Module BriefFacts.
Import Np NpFacts Orient OrientFacts Brief.
Local Open Scope Z_scope.

Lemma length_descriptor_bits (image : grid Z) (patch_size : Z)
      (random_points : list (Z * Z)) (kp : Z * Z) (angle : R) :
  length (descriptor_bits image patch_size random_points kp angle)
  = length random_points.
Proof.
  unfold descriptor_bits. destruct kp as [x y].
  now rewrite !length_map.
Qed.

Lemma descriptor_of_cases (image : grid Z) (patch_size : Z)
      (random_points : list (Z * Z)) (kp : Z * Z) (angle : R) :
  descriptor_of image patch_size (length random_points) random_points kp angle
  = if full_patch image (fst kp) (snd kp) patch_size
    then [descriptor_bits image patch_size random_points kp angle]
    else [].
Proof.
  unfold descriptor_of.
  destruct (full_patch image (fst kp) (snd kp) patch_size); cbn [negb];
    [|reflexivity].
  now rewrite length_descriptor_bits, Nat.eqb_refl.
Qed.

Lemma flat_map_descriptors (image : grid Z) (patch_size : Z)
      (random_points : list (Z * Z)) (pairs : list ((Z * Z) * R)) :
  flat_map (fun p => descriptor_of image patch_size (length random_points)
                                   random_points (fst p) (snd p))
           pairs
  = map (fun p => descriptor_bits image patch_size random_points (fst p) (snd p))
        (filter (fun p => full_patch image (fst (fst p)) (snd (fst p)) patch_size)
                pairs).
Proof.
  induction pairs as [|p rest IH]; [reflexivity|].
  cbn [flat_map filter]. rewrite descriptor_of_cases, IH.
  destruct (full_patch image (fst (fst p)) (snd (fst p)) patch_size);
    reflexivity.
Qed.

Lemma filter_combine_fst (A B : Type) (f : A -> bool) (l : list A) (l' : list B) :
  length l' = length l ->
  map fst (filter (fun p => f (fst p)) (combine l l')) = filter f l.
Proof.
  revert l'. induction l as [|a l IH]; intros [|b l'] Hlen;
    try discriminate; [reflexivity|].
  cbn [combine filter fst]. injection Hlen as Hlen.
  destruct (f a); cbn [map fst]; now rewrite IH.
Qed.

(** C7.  With an odd patch size of at least 3, one orientation per keypoint
    and a sampling pattern of [n] pairs, the generator returns, in keypoint
    order, one descriptor of exactly [n] bits for every keypoint that
    passes the patch test and nothing for the others; for a keypoint at a
    pixel coordinate the patch test is that the whole
    [(2 * radius + 1)]-sized patch fits in the grid. *)
Theorem brief_descriptor_one_per_full_patch
        (image : grid Z) (keypoints : list (Z * Z)) (orientations : list R)
        (patch_size : Z) (n : nat) (random_points : list (Z * Z)) :
  Z.odd patch_size = true -> 3 <= patch_size ->
  length orientations = length keypoints ->
  length random_points = n ->
  Forall pixel_coordinate keypoints ->
  exists descriptors : list (list Z),
    brief_descriptor image keypoints orientations patch_size n random_points
    = Some descriptors
    /\ descriptors
       = map (fun p => descriptor_bits image patch_size random_points
                                       (fst p) (snd p))
             (filter (fun p => full_patch image (fst (fst p)) (snd (fst p))
                                          patch_size)
                     (combine keypoints orientations))
    /\ length descriptors = length (survivors image patch_size keypoints)
    /\ (length descriptors <= length keypoints)%nat
    /\ Forall (fun d => length d = n) descriptors
    /\ (forall kp, In kp keypoints ->
                   (In kp (survivors image patch_size keypoints)
                    <-> patch_fits image (patch_size / 2) kp)).
Proof.
  intros Hodd Hps Hlen Hn Hkps.
  assert (Hradius : 1 <= patch_size / 2)
    by (apply Z.div_le_lower_bound; lia).
  eexists. split; [|split; [reflexivity|]].
  - unfold brief_descriptor.
    destruct (Z.leb_spec (patch_size / 2) 0); [lia|].
    subst n. now rewrite flat_map_descriptors.
  - split; [|split; [|split]].
    + rewrite length_map. unfold survivors.
      rewrite <- (filter_combine_fst
                    (fun kp => full_patch image (fst kp) (snd kp) patch_size)
                    keypoints orientations Hlen).
      now rewrite length_map.
    + rewrite length_map.
      etransitivity; [apply filter_length_le|].
      rewrite length_combine. lia.
    + apply Forall_map, Forall_forall. intros p _.
      now rewrite length_descriptor_bits.
    + intros kp Hin. unfold survivors. rewrite filter_In.
      rewrite Forall_forall in Hkps.
      rewrite (@full_patch_fits image patch_size kp Hodd (Hkps kp Hin)).
      intuition lia.
Qed.

(** C9.  For a keypoint that passes the patch test the bit emitted for the
    [i]-th rotated pair [(dx, dy)] is 1 when both compared positions lie in
    the patch and the intensity at column [radius + dx], row [radius + dy]
    is strictly greater than the one at column [radius - dx], row
    [radius - dy]; it is 0 when they lie in the patch and it is not
    greater, and 0 when a position falls outside the patch. *)
Theorem brief_bit_compares_mirrored_pair
        (image : grid Z) (patch_size : Z) (n : nat)
        (random_points : list (Z * Z)) (kp : Z * Z) (angle : R) :
  full_patch image (fst kp) (snd kp) patch_size = true ->
  length random_points = n ->
  exists bits : list Z,
    descriptor_of image patch_size n random_points kp angle = [bits]
    /\ length bits = n
    /\ forall i, (i < n)%nat ->
         let radius := patch_size / 2 in
         let patch := extract_patch image (fst kp) (snd kp) radius in
         let d := rotate_point angle (nth i random_points (0, 0)) in
         let first := patch_at patch (radius + snd d) (radius + fst d) in
         let second := patch_at patch (radius - snd d) (radius - fst d) in
         (pair_in_patch radius patch_size d -> first > second ->
          nth i bits 0 = 1)
         /\ (pair_in_patch radius patch_size d -> first <= second ->
             nth i bits 0 = 0)
         /\ (~ pair_in_patch radius patch_size d -> nth i bits 0 = 0).
Proof.
  intros Hfull Hn. subst n.
  exists (descriptor_bits image patch_size random_points kp angle).
  split; [now rewrite descriptor_of_cases, Hfull|].
  split; [apply length_descriptor_bits|].
  intros i Hi radius patch d first second.
  assert (Hbit : nth i (descriptor_bits image patch_size random_points kp angle) 0
                 = brief_bit patch radius patch_size d).
  { unfold descriptor_bits. destruct kp as [x y]. cbn [fst snd] in *.
    rewrite map_map.
    rewrite (nth_indep _ 0
               (brief_bit patch radius patch_size
                          (rotate_point angle (0, 0))))
      by (now rewrite length_map).
    now rewrite (map_nth (fun p => brief_bit _ _ _ (rotate_point angle p))). }
  rewrite Hbit. unfold brief_bit, pair_in_patch.
  destruct d as [dx dy]. cbn [fst snd] in *.
  fold first second.
  destruct (Z.leb_spec 0 (radius + dx)); destruct (Z.ltb_spec (radius + dx) patch_size);
    destruct (Z.leb_spec 0 (radius + dy)); destruct (Z.ltb_spec (radius + dy) patch_size);
    destruct (Z.leb_spec 0 (radius - dx)); destruct (Z.ltb_spec (radius - dx) patch_size);
    destruct (Z.leb_spec 0 (radius - dy)); destruct (Z.ltb_spec (radius - dy) patch_size);
    cbn [andb];
    try (repeat split; intros; solve [reflexivity | lia]).
  destruct (Z.gtb_spec first second); repeat split; intros; solve [reflexivity | lia].
Qed.

Lemma brief_descriptor_one_per_full_patch_witness :
  exists descriptors : list (list Z),
    brief_descriptor blob_left [(1, 1); (0, 2)] [0%R; 0%R] 3 2
                     [(-1, 0); (0, -1)]
    = Some descriptors
    /\ length descriptors = 1%nat
    /\ Forall (fun d => length d = 2%nat) descriptors.
Proof.
  assert (Hodd : Z.odd 3 = true) by reflexivity.
  assert (Hps : 3 <= 3) by lia.
  assert (Hlen : length [0%R; 0%R] = length [(1, 1); (0, 2)]) by reflexivity.
  assert (Hn : length [(-1, 0); (0, -1)] = 2%nat) by reflexivity.
  assert (Hkps : Forall pixel_coordinate [(1, 1); (0, 2)])
    by (repeat constructor; simpl; lia).
  destruct (@brief_descriptor_one_per_full_patch
              blob_left [(1, 1); (0, 2)] [0%R; 0%R] 3 2 [(-1, 0); (0, -1)]
              Hodd Hps Hlen Hn Hkps)
    as [descriptors [Hsome [_ [Hcount [_ [Hbits _]]]]]].
  exists descriptors. split; [exact Hsome|]. split; [|exact Hbits].
  rewrite Hcount. vm_compute. reflexivity.
Defined.

Lemma brief_bit_compares_mirrored_pair_witness :
  exists bits : list Z,
    descriptor_of blob_left 3 2 [(-1, 0); (0, -1)] (1, 1) 0%R = [bits]
    /\ length bits = 2%nat.
Proof.
  assert (Hfull : full_patch blob_left (fst (1, 1)) (snd (1, 1)) 3 = true)
    by (vm_compute; reflexivity).
  assert (Hn : length [(-1, 0); (0, -1)] = 2%nat) by reflexivity.
  destruct (@brief_bit_compares_mirrored_pair
              blob_left 3 2 [(-1, 0); (0, -1)] (1, 1) 0%R Hfull Hn)
    as [bits [Hdesc [Hlen _]]].
  exists bits. split; [exact Hdesc | exact Hlen].
Defined.

(** ** A worked descriptor *)

Lemma np_round_IZR (z : Z) : np_round (IZR z) = z.
Proof.
  unfold np_round. rewrite Int_part_IZR.
  destruct (Rlt_dec (IZR z - IZR z) (1 / 2)) as [_|H]; [reflexivity | lra].
Qed.

Lemma rotate_point_zero (p : Z * Z) : rotate_point 0 p = p.
Proof.
  destruct p as [a b]. unfold rotate_point.
  rewrite cos_0, sin_0.
  replace (IZR a * 1 + IZR b * - 0)%R with (IZR a) by ring.
  replace (IZR a * 0 + IZR b * 1)%R with (IZR b) by ring.
  now rewrite !np_round_IZR.
Qed.

(** Unrotated, the pair [(-1, 0)] compares the pixel left of the centre
    with the pixel right of it, [(0, -1)] the pixel above with the pixel
    below; the keypoint in the corner is dropped. *)
Lemma brief_descriptor_blob_left :
  brief_descriptor blob_left [(1, 1); (0, 2)] [0%R; 0%R] 3 2
                   [(-1, 0); (0, -1)]
  = Some [[1; 0]].
Proof.
  unfold brief_descriptor.
  change (3 / 2 <=? 0) with false. cbv iota.
  cbn [combine flat_map fst snd app].
  unfold descriptor_of. cbn [fst snd].
  replace (full_patch blob_left 1 1 3) with true by (vm_compute; reflexivity).
  replace (full_patch blob_left 0 2 3) with false by (vm_compute; reflexivity).
  cbn [negb]. unfold descriptor_bits.
  cbn [map length Nat.eqb]. rewrite !rotate_point_zero.
  vm_compute. reflexivity.
Qed.

End BriefFacts.

(* ================================================================== *)
(** * Further properties of the convolution engine and the smoother *)
(* ================================================================== *)

Module ConvProps.
Import Np NpFacts Conv ConvFacts.

(** ** Shared lemmas *)


Lemma cell_tabulate (A : Type) (d : A) (f : nat -> nat -> A) (H W i j : nat) :
  (i < H)%nat -> (j < W)%nat ->
  cell d (map (fun i => map (fun j => f i j) (seq 0 W)) (seq 0 H)) i j = f i j.
Proof.
  intros Hi Hj. unfold cell.
  rewrite (nth_map_seq (fun i => map (fun j => f i j) (seq 0 W)) [] Hi).
  now rewrite (nth_map_seq (fun j => f i j) d Hj).
Qed.

Lemma convolve_float_cells (image kernel : grid R) (H W : nat) :
  rectangular image H W -> (1 <= H)%nat -> (1 <= W)%nat ->
  rectangular kernel (height kernel) (width kernel) ->
  exists out,
    convolve (FloatArr image) kernel = Some (FloatArr out)
    /\ rectangular out H W
    /\ forall i j, (i < H)%nat -> (j < W)%nat ->
         cell 0%R out i j = neighbourhood_sum image kernel i j.
Proof.
  intros Hr HH HW Hk. unfold convolve.
  rewrite (convolve_cells_spec Hr HH HW Hk). cbn [option_map].
  eexists. split; [reflexivity|]. split.
  - split.
    + now rewrite length_map, length_seq.
    + apply Forall_map, Forall_forall. intros i _.
      now rewrite length_map, length_seq.
  - intros i j Hi Hj. now rewrite cell_tabulate.
Qed.







Lemma reflect_index_mirror (n pad p : nat) :
  (pad < n)%nat -> (p < n + 2 * pad)%nat ->
  reflect_index n (Z.of_nat p - Z.of_nat pad) = mirror n pad p.
Proof.
  intros Hpad Hp. unfold mirror.
  destruct (Nat.ltb_spec p pad) as [Hlt|Hge].
  - replace (Z.of_nat p - Z.of_nat pad)%Z with (- Z.of_nat (pad - p))%Z by lia.
    apply reflect_index_mirror_left. lia.
  - destruct (Nat.ltb_spec p (n + pad)) as [Hin|Hout].
    + replace (Z.of_nat p - Z.of_nat pad)%Z with (Z.of_nat (p - pad)) by lia.
      apply reflect_index_inside. lia.
    + replace (Z.of_nat p - Z.of_nat pad)%Z
        with (Z.of_nat (n - 1) + Z.of_nat (p - pad - (n - 1)))%Z by lia.
      rewrite reflect_index_mirror_right by lia. lia.
Qed.

Lemma kernel_pad_bound (k : nat) : (k <= 2 * (k / 2) + 1)%nat.
Proof.
  pose proof (Nat.div_mod_eq k 2). pose proof (Nat.mod_upper_bound k 2). lia.
Qed.

(** ** Cell formula *)

(** X1.  On a float grid and for a kernel whose half sizes are smaller than
    the grid, output cell [(i, j)] is the sum over the kernel positions
    [(a, b)] of weight [kernel[a][b]] times the input cell at row
    [i + a - pad_h], column [j + b - pad_w], an index outside the grid being
    mirrored about the border row or column (which is not repeated).  The
    kernel is applied as it is, not flipped. *)
Theorem convolve_cell_formula (image kernel : grid R) (H W i j : nat) :
  rectangular image H W ->
  rectangular kernel (height kernel) (width kernel) ->
  (height kernel / 2 < H)%nat -> (width kernel / 2 < W)%nat ->
  (i < H)%nat -> (j < W)%nat ->
  exists out,
    convolve (FloatArr image) kernel = Some (FloatArr out)
    /\ rectangular out H W
    /\ cell 0%R out i j
       = rsum (map (fun a =>
                 rsum (map (fun b =>
                         (cell 0%R image
                               (mirror H (height kernel / 2) (i + a))
                               (mirror W (width kernel / 2) (j + b))
                          * cell 0%R kernel a b)%R)
                      (seq 0 (width kernel))))
              (seq 0 (height kernel))).
Proof.
  intros Hr Hk Hph Hpw Hi Hj.
  destruct (@convolve_float_cells image kernel H W Hr ltac:(lia) ltac:(lia) Hk)
    as [out [Hout [Hshape Hcells]]].
  exists out. split; [exact Hout|]. split; [exact Hshape|].
  rewrite (Hcells i j Hi Hj). unfold neighbourhood_sum.
  pose proof (kernel_pad_bound (height kernel)).
  pose proof (kernel_pad_bound (width kernel)).
  apply rsum_ext. intros a Ha. apply in_seq in Ha.
  apply rsum_ext. intros b Hb. apply in_seq in Hb.
  unfold padded_cell.
  replace (height image) with H by (symmetry; apply Hr).
  rewrite (rectangular_width Hr) by lia.
  rewrite !reflect_index_mirror by lia.
  reflexivity.
Qed.

Lemma convolve_cell_formula_witness :
  exists out,
    convolve (FloatArr [[1; 2; 3]; [4; 5; 6]]%R) [[0; 0; 1]]%R
    = Some (FloatArr out)
    /\ cell 0%R out 1 2 = 5%R.
Proof.
  assert (Hr : rectangular [[1; 2; 3]; [4; 5; 6]]%R 2 3)
    by (split; [reflexivity | repeat constructor]).
  assert (Hk : rectangular [[0; 0; 1]]%R (height [[0; 0; 1]]%R)
                           (width [[0; 0; 1]]%R))
    by (split; [reflexivity | repeat constructor]).
  destruct (@convolve_cell_formula [[1; 2; 3]; [4; 5; 6]]%R [[0; 0; 1]]%R
              2 3 1 2 Hr Hk)
    as [out [Hout [_ Hcell]]]; try (simpl; lia).
  exists out. split; [exact Hout|].
  rewrite Hcell. cbv -[Rplus Rmult IZR]. lra.
Defined.

(** ** Identity kernel *)



(** ** Range of the result *)






Lemma gaussian_kernel_shape (size : nat) (sigma : R) :
  rectangular (gaussian_kernel size sigma)
              (height (gaussian_kernel size sigma))
              (width (gaussian_kernel size sigma)).
Proof.
  pose proof (gaussian_kernel_rectangular size sigma) as Hk.
  destruct size as [|n].
  - split; [reflexivity | constructor].
  - rewrite (rectangular_width Hk) by lia.
    replace (height (gaussian_kernel (S n) sigma)) with (S n)
      by (symmetry; apply Hk).
    exact Hk.
Qed.



(** ** Gaussian kernel *)










(** ** Smoothing *)



(** ** Empty grid *)

(** X8.  On the empty grid [convolve] fails as soon as the kernel has two
    rows or two columns (the padding of an empty axis is refused); with a
    kernel of at most one row and one column it returns the empty grid. *)
Theorem convolve_empty_grid (kernel : grid R) :
  (convolve (FloatArr []) kernel = None
   <-> (2 <= height kernel)%nat \/ (2 <= width kernel)%nat)
  /\ (convolve (FloatArr []) kernel = Some (FloatArr [])
      <-> (height kernel <= 1)%nat /\ (width kernel <= 1)%nat).
Proof.
  unfold convolve, convolve_cells, np_pad_reflect.
  cbn [height width length hd Nat.eqb andb seq map].
  assert (Hdiv : forall k, (k / 2 =? 0)%nat = (k <? 2)%nat).
  { intros k. destruct k as [|[|k]]; try reflexivity.
    destruct (Nat.eqb_spec (S (S k) / 2) 0) as [E|E].
    - pose proof (Nat.div_mod_eq (S (S k)) 2).
      pose proof (Nat.mod_upper_bound (S (S k)) 2). lia.
    - reflexivity. }
  fold (height kernel). fold (width kernel).
  rewrite !Hdiv.
  destruct (Nat.ltb_spec (height kernel) 2);
    destruct (Nat.ltb_spec (width kernel) 2);
    cbn [negb orb option_map]; split; split;
    try discriminate; try (intros; lia); try reflexivity;
    intros; try reflexivity; try (exfalso; lia).
Qed.

End ConvProps.

(* ================================================================== *)
(** * Further properties of the FAST detector *)
(* ================================================================== *)

Module FastProps.
Import Np NpFacts ConvFacts Fast FastFacts.
Local Open Scope Z_scope.

Lemma height_astype_int32 (image : ndarray) :
  height (astype_int32 image) = height (as_real image).
Proof.
  destruct image; cbn [astype_int32 as_real]; now rewrite !height_map_map.
Qed.

Lemma width_astype_int32 (image : ndarray) :
  width (astype_int32 image) = width (as_real image).
Proof.
  destruct image; cbn [astype_int32 as_real]; now rewrite !width_map_map.
Qed.


(** ** Scan order *)

Lemma candidates_of_In (image : grid Z) (threshold y : Z) (xs : list Z)
      (p : Z * Z) :
  In p (candidates_of image threshold y xs) -> snd p = y /\ In (fst p) xs.
Proof.
  unfold candidates_of. intros Hin. apply in_flat_map in Hin.
  destruct Hin as [x [Hx Hp]].
  destruct (accepts image y x threshold); [|contradiction].
  destruct Hp as [<-|[]]. now split.
Qed.

Lemma py_range_sorted (lo hi : Z) : StronglySorted Z.lt (py_range lo hi).
Proof.
  unfold py_range. generalize (Z.to_nat (hi - lo)). intros n.
  generalize 0%nat. induction n as [|n IH]; intros s; cbn [seq map].
  - constructor.
  - constructor; [apply IH|].
    apply Forall_map, Forall_forall. intros k Hk. apply in_seq in Hk. lia.
Qed.

Lemma candidates_row_sorted (image : grid Z) (threshold y : Z) (xs : list Z) :
  StronglySorted Z.lt xs ->
  StronglySorted scan_before (candidates_of image threshold y xs).
Proof.
  induction 1 as [|x xs Hsorted IH Hx]; [constructor|].
  unfold candidates_of. cbn [flat_map].
  fold (candidates_of image threshold y xs).
  destruct (accepts image y x threshold); [|exact IH].
  cbn [app]. constructor; [exact IH|].
  apply Forall_forall. intros p Hp.
  apply candidates_of_In in Hp. destruct Hp as [Hy Hin].
  rewrite Forall_forall in Hx. specialize (Hx _ Hin).
  right. cbn [fst snd]. split; [now symmetry | exact Hx].
Qed.

Lemma StronglySorted_app (A : Type) (R : A -> A -> Prop) (l1 l2 : list A) :
  StronglySorted R l1 -> StronglySorted R l2 ->
  (forall a b, In a l1 -> In b l2 -> R a b) ->
  StronglySorted R (l1 ++ l2).
Proof.
  intros H1 H2 H12. induction H1 as [|a l1 Hs IH Ha]; [exact H2|].
  cbn [app]. constructor.
  - apply IH. intros x b Hx Hb. apply H12; [now right | exact Hb].
  - apply Forall_app. split; [exact Ha|].
    apply Forall_forall. intros b Hb. apply H12; [now left | exact Hb].
Qed.

Lemma scan_sorted (image : grid Z) (threshold : Z) (xs ys : list Z) :
  StronglySorted Z.lt xs -> StronglySorted Z.lt ys ->
  StronglySorted scan_before
    (flat_map (fun y => candidates_of image threshold y xs) ys).
Proof.
  intros Hxs. induction 1 as [|y ys Hsorted IH Hy]; [constructor|].
  cbn [flat_map]. apply StronglySorted_app.
  - now apply candidates_row_sorted.
  - exact IH.
  - intros a b Ha Hb. apply candidates_of_In in Ha. destruct Ha as [Hay _].
    apply in_flat_map in Hb. destruct Hb as [y' [Hy' Hb]].
    apply candidates_of_In in Hb. destruct Hb as [Hby _].
    rewrite Forall_forall in Hy. specialize (Hy _ Hy').
    left. lia.
Qed.

Lemma scan_before_irrefl (p : Z * Z) : ~ scan_before p p.
Proof. unfold scan_before. lia. Qed.

Lemma sorted_NoDup (A : Type) (R : A -> A -> Prop) (l : list A) :
  (forall a, ~ R a a) -> StronglySorted R l -> NoDup l.
Proof.
  intros Hirr. induction 1 as [|a l Hs IH Ha]; constructor; [|exact IH].
  intros Hin. rewrite Forall_forall in Ha. exact (Hirr a (Ha a Hin)).
Qed.

Lemma detect_fast_sorted (image : ndarray) (threshold : Z) :
  StronglySorted scan_before (detect_fast image threshold).
Proof.
  unfold detect_fast, detect_fast_int32.
  apply (scan_sorted (astype_int32 image) threshold); apply py_range_sorted.
Qed.

Lemma detect_fast_NoDup (image : ndarray) (threshold : Z) :
  NoDup (detect_fast image threshold).
Proof.
  exact (sorted_NoDup scan_before_irrefl (detect_fast_sorted image threshold)).
Qed.

(** X10.  The keypoints come out in scan order, row by row from the top and
    left to right within a row, so no pixel is returned twice. *)
Theorem detect_fast_scan_order (image : ndarray) (threshold : Z) :
  StronglySorted scan_before (detect_fast image threshold)
  /\ NoDup (detect_fast image threshold).
Proof.
  split; [apply detect_fast_sorted | apply detect_fast_NoDup].
Qed.

(** ** Images without contrast *)

Lemma no_In_nil (A : Type) (l : list A) : (forall a, ~ In a l) -> l = [].
Proof.
  destruct l as [|a l]; [reflexivity|].
  intros H. exfalso. apply (H a). now left.
Qed.

Lemma linear_run12_none (flags : list bool) :
  Forall (fun b => b = false) flags -> linear_run12 flags = false.
Proof.
  intros Hall. unfold linear_run12.
  apply not_true_is_false. intros Hex.
  apply existsb_exists in Hex. destruct Hex as [start [_ Hrun]].
  rewrite forallb_forall in Hrun.
  specialize (Hrun 0%nat ltac:(now left)).
  rewrite Nat.add_0_r in Hrun.
  destruct (Nat.lt_ge_cases start (length flags)) as [Hs|Hs].
  - rewrite Forall_forall in Hall.
    rewrite (Hall _ (nth_In flags false Hs)) in Hrun. discriminate.
  - rewrite nth_overflow in Hrun by exact Hs. discriminate.
Qed.

(** A pixel none of whose circle samples differs from it by more than the
    threshold is rejected. *)
Lemma accepts_needs_contrast (image : grid Z) (y x threshold : Z) :
  Forall (fun v => differs (pixel image y x) threshold v = false)
         (circle_samples image y x) ->
  accepts image y x threshold = false.
Proof.
  intros Hall. rewrite accepts_linear_run. unfold has_linear_run12.
  rewrite linear_run12_none; [apply andb_false_r|].
  apply Forall_map. exact Hall.
Qed.

Lemma cell_default_or_member (g : grid Z) (i j : nat) (P : Z -> Prop) :
  P 0 -> Forall (Forall P) g -> P (cell 0 g i j).
Proof.
  intros H0 Hall. unfold cell.
  destruct (Nat.lt_ge_cases i (length g)) as [Hi|Hi].
  - assert (Hrow : Forall P (nth i g [])).
    { rewrite Forall_forall in Hall. apply Hall, nth_In, Hi. }
    destruct (Nat.lt_ge_cases j (length (nth i g []))) as [Hj|Hj].
    + rewrite Forall_forall in Hrow. apply Hrow, nth_In, Hj.
    + now rewrite nth_overflow.
  - rewrite (nth_overflow g [] Hi). now destruct j.
Qed.

Lemma astype_uint8 (g : grid Z) :
  grid_in_range UInt8 g -> astype_int32 (IntArr UInt8 g) = g.
Proof.
  intros Hrange. cbn [astype_int32].
  rewrite <- (map_id g) at 2. apply map_ext_in. intros row Hrow.
  rewrite <- (map_id row) at 2. apply map_ext_in. intros z Hz.
  unfold grid_in_range in Hrange. rewrite Forall_forall in Hrange.
  specialize (Hrange _ Hrow). rewrite Forall_forall in Hrange.
  specialize (Hrange _ Hz). unfold in_range in Hrange.
  apply (wrap_in_range Int32). unfold in_range. lia.
Qed.

(** X11.  On a [uint8] image a threshold of 255 or more (below the [int32]
    limit) detects nothing: no sample can differ from the centre by more
    than the threshold. *)
Theorem detect_fast_threshold_255 (g : grid Z) (threshold : Z) :
  grid_in_range UInt8 g ->
  255 <= threshold <= 2 ^ 31 - 256 ->
  detect_fast (IntArr UInt8 g) threshold = [].
Proof.
  intros Hrange Ht. unfold detect_fast. rewrite (astype_uint8 Hrange).
  apply no_In_nil. intros [x y] Hin.
  apply detect_fast_int32_In in Hin. destruct Hin as [_ [_ Hacc]].
  rewrite accepts_needs_contrast in Hacc; [discriminate|].
  assert (Hpix : forall i j, 0 <= pixel g i j <= 255).
  { intros i j. unfold pixel.
    apply (@cell_default_or_member g _ _ (fun v => 0 <= v <= 255)); [lia|].
    unfold grid_in_range, in_range in Hrange.
    eapply Forall_impl; [|exact Hrange]. intros row Hrow.
    eapply Forall_impl; [|exact Hrow]. intros z Hz. cbv beta in *. lia. }
  unfold circle_samples. apply Forall_map, Forall_forall. intros d _.
  pose proof (Hpix y x) as Hc.
  pose proof (Hpix (y + fst d) (x + snd d)) as Hv.
  unfold differs, is_brighter, is_darker.
  rewrite !(wrap_in_range Int32) by (unfold in_range; lia).
  apply orb_false_iff. split.
  - rewrite Z.gtb_ltb. apply Z.ltb_ge. lia.
  - apply Z.ltb_ge. lia.
Qed.

Lemma detect_fast_threshold_255_witness :
  detect_fast (IntArr UInt8 mixed_polarity_image) 255 = [].
Proof.
  apply detect_fast_threshold_255.
  - repeat constructor; simpl; lia.
  - lia.
Defined.

Lemma circle_offsets_small :
  Forall (fun d => -3 <= fst d <= 3 /\ -3 <= snd d <= 3) bresenham_circle.
Proof. repeat constructor; simpl; lia. Qed.

(** X12.  A flat [uint8] image has no keypoint, for every threshold from 0
    up (below the [int32] limit). *)
Theorem detect_fast_flat_image (H W : nat) (c threshold : Z) :
  0 <= c <= 255 -> 0 <= threshold <= 2 ^ 31 - 256 ->
  detect_fast (IntArr UInt8 (const_grid H W c)) threshold = [].
Proof.
  intros Hc Ht. unfold detect_fast.
  rewrite astype_uint8.
  2:{ unfold grid_in_range, const_grid.
      apply Forall_forall. intros row Hrow. apply repeat_spec in Hrow.
      subst row. apply Forall_forall. intros z Hz.
      apply repeat_spec in Hz. subst z. unfold in_range. lia. }
  apply no_In_nil. intros [x y] Hin.
  apply detect_fast_int32_In in Hin. destruct Hin as [Hy [Hx Hacc]].
  pose proof (rectangular_const H W c) as Hrect.
  assert (HH : height (const_grid H W c) = H) by apply Hrect.
  assert (HW : width (const_grid H W c) = W).
  { apply (rectangular_width Hrect). rewrite HH in Hy. lia. }
  rewrite HH in Hy. rewrite HW in Hx.
  rewrite accepts_needs_contrast in Hacc; [discriminate|].
  assert (Hpix : forall dy dx, -3 <= dy <= 3 -> -3 <= dx <= 3 ->
                               pixel (const_grid H W c) (y + dy) (x + dx) = c).
  { intros dy dx Hdy Hdx. unfold pixel. apply cell_const; lia. }
  unfold circle_samples. apply Forall_map.
  eapply Forall_impl; [|exact circle_offsets_small].
  intros d [Hdy Hdx]. cbv beta.
  rewrite (Hpix (fst d) (snd d) Hdy Hdx).
  replace (pixel (const_grid H W c) y x) with c.
  2:{ symmetry. replace y with (y + 0) by lia. replace x with (x + 0) by lia.
      apply Hpix; lia. }
  unfold differs, is_brighter, is_darker.
  rewrite !(wrap_in_range Int32) by (unfold in_range; lia).
  apply orb_false_iff. split.
  - rewrite Z.gtb_ltb. apply Z.ltb_ge. lia.
  - apply Z.ltb_ge. lia.
Qed.

Lemma detect_fast_flat_image_witness :
  detect_fast (IntArr UInt8 (const_grid 9 9 128)) 30 = [].
Proof.
  apply detect_fast_flat_image; lia.
Defined.

End FastProps.

(* ================================================================== *)
(** * Further properties of the Harris filter *)
(* ================================================================== *)

Module HarrisProps.
Import Np NpFacts Conv ConvFacts Fast FastFacts Harris HarrisFacts.

(** ** Shared lemmas *)

(** The result on a well-formed input, as one equation. *)
Lemma harris_detector_result (image : ndarray) (keypoints : list (Z * Z))
      (k threshold : R) (H W : nat) :
  rectangular (as_real image) H W -> (2 <= H)%nat -> (2 <= W)%nat ->
  Forall (in_image image) keypoints ->
  exists Ixx Iyy Ixy,
    structure_tensor image = Some (Ixx, Iyy, Ixy)
    /\ rectangular Ixx H W /\ rectangular Iyy H W /\ rectangular Ixy H W
    /\ harris_detector image keypoints k threshold
       = Some (map point
                 (sorted_desc
                    (map (fun p => (p, response_at Ixx Iyy Ixy k p))
                         (filter (fun p => above threshold
                                             (response_at Ixx Iyy Ixy k p))
                                 keypoints)))).
Proof.
  intros Hr HH HW Hkps.
  destruct (structure_tensor_shape image Hr HH HW)
    as [Ixx [Iyy [Ixy [Ht [Hxx [Hyy Hxy]]]]]].
  assert (Hb : Forall (in_bounds H W) keypoints).
  { eapply Forall_impl; [|exact Hkps]. intros p [Hx Hy]. split.
    - now rewrite (rectangular_width Hr) in Hx by lia.
    - replace (height (as_real image)) with H in Hy by (symmetry; apply Hr).
      exact Hy. }
  exists Ixx, Iyy, Ixy. repeat (split; [assumption|]).
  unfold harris_detector. rewrite Ht.
  now rewrite (filter_loop_spec k threshold Hxx Hyy Hxy Hb).
Qed.

Lemma map_point_scored (f : Z * Z -> R) (l : list (Z * Z)) :
  map point (map (fun p => (p, f p)) l) = l.
Proof.
  rewrite map_map. unfold point. cbn [fst]. apply map_id.
Qed.

(** ** After FAST *)

Lemma detect_fast_in_image (image : ndarray) (threshold : Z) :
  Forall (in_image image) (detect_fast image threshold).
Proof.
  apply Forall_forall. intros [x y] Hin. unfold detect_fast in Hin.
  apply detect_fast_int32_In in Hin. destruct Hin as [Hy [Hx _]].
  rewrite FastProps.height_astype_int32 in Hy.
  rewrite FastProps.width_astype_int32 in Hx.
  unfold in_image. cbn [fst snd]. lia.
Qed.

(** On a well-formed input the result is a rearranged sublist of the
    candidates. *)
Lemma harris_detector_sublist (image : ndarray) (keypoints : list (Z * Z))
      (k threshold : R) (H W : nat) :
  rectangular (as_real image) H W -> (2 <= H)%nat -> (2 <= W)%nat ->
  Forall (in_image image) keypoints -> NoDup keypoints ->
  exists kept,
    harris_detector image keypoints k threshold = Some kept
    /\ incl kept keypoints
    /\ NoDup kept
    /\ (length kept <= length keypoints)%nat.
Proof.
  intros Hr HH HW Hkps Hnodup.
  destruct (@harris_detector_result image keypoints k threshold H W
              Hr HH HW Hkps)
    as [Ixx [Iyy [Ixy [_ [_ [_ [_ Hout]]]]]]].
  eexists. split; [exact Hout|].
  set (kept := filter _ keypoints).
  assert (Hperm : Permutation
                    (map point (sorted_desc
                       (map (fun p => (p, response_at Ixx Iyy Ixy k p)) kept)))
                    kept).
  { rewrite sorted_desc_perm. now rewrite map_point_scored. }
  split; [|split].
  - intros p Hp. apply (Permutation_in _ Hperm) in Hp.
    unfold kept in Hp. now apply filter_In in Hp.
  - apply (Permutation_NoDup (Permutation_sym Hperm)).
    unfold kept. now apply NoDup_filter.
  - rewrite (Permutation_length Hperm). unfold kept. apply filter_length_le.
Qed.

(** X13.  The Harris stage never fails on the output of the FAST stage:
    for an image of at least 2x2 pixels it returns a list, every point of
    which is one of the FAST candidates, and no candidate appears more
    often than FAST returned it (that is, once). *)
Theorem harris_after_fast (image : ndarray) (fast_threshold : Z)
        (k threshold : R) (H W : nat) :
  rectangular (as_real image) H W -> (2 <= H)%nat -> (2 <= W)%nat ->
  exists keypoints,
    harris_detector image (detect_fast image fast_threshold) k threshold
    = Some keypoints
    /\ incl keypoints (detect_fast image fast_threshold)
    /\ NoDup keypoints
    /\ (length keypoints <= length (detect_fast image fast_threshold))%nat.
Proof.
  intros Hr HH HW.
  apply (@harris_detector_sublist image (detect_fast image fast_threshold)
           k threshold H W Hr HH HW).
  - apply detect_fast_in_image.
  - apply FastProps.detect_fast_NoDup.
Qed.

Lemma harris_after_fast_witness :
  exists keypoints,
    harris_detector (IntArr UInt8 mixed_polarity_image)
                    (detect_fast (IntArr UInt8 mixed_polarity_image) 30)
                    default_k default_threshold
    = Some keypoints
    /\ incl keypoints (detect_fast (IntArr UInt8 mixed_polarity_image) 30).
Proof.
  destruct (@harris_after_fast (IntArr UInt8 mixed_polarity_image) 30
              default_k default_threshold 7 7)
    as [keypoints [Hout [Hincl _]]].
  - split; [reflexivity | repeat constructor].
  - lia.
  - lia.
  - exists keypoints. split; [exact Hout | exact Hincl].
Defined.

(** ** Failures *)

Lemma harris_needs_two_by_two_aux (image : ndarray)
      (keypoints : list (Z * Z)) (k threshold : R) :
  (height (as_real image) < 2)%nat \/ (width (as_real image) < 2)%nat ->
  harris_detector image keypoints k threshold = None.
Proof.
  intros Hsmall. unfold harris_detector, structure_tensor.
  unfold gradient_axis1, gradient_axis0.
  destruct (Nat.ltb_spec (width (as_real image)) 2) as [Hw|Hw];
    [reflexivity|].
  destruct (Nat.ltb_spec (height (as_real image)) 2) as [Hh|Hh];
    [reflexivity|].
  lia.
Qed.

(** X14.  On an image with fewer than two rows or fewer than two columns
    the filter fails, whatever the candidates (even none): the gradient
    needs two samples along each axis.  This holds although FAST returns
    no candidate on such an image. *)
Theorem harris_needs_two_by_two (image : ndarray) (fast_threshold : Z)
        (keypoints : list (Z * Z)) (k threshold : R) :
  (height (as_real image) < 2)%nat \/ (width (as_real image) < 2)%nat ->
  harris_detector image keypoints k threshold = None
  /\ detect_fast image fast_threshold = []
  /\ harris_detector image (detect_fast image fast_threshold) k threshold
     = None.
Proof.
  intros Hsmall.
  split; [now apply harris_needs_two_by_two_aux|].
  split; [|now apply harris_needs_two_by_two_aux].
  apply FastProps.no_In_nil. intros [x y] Hin.
  unfold detect_fast in Hin.
  apply detect_fast_int32_In in Hin. destruct Hin as [Hy [Hx _]].
  rewrite FastProps.height_astype_int32 in Hy.
  rewrite FastProps.width_astype_int32 in Hx. lia.
Qed.

Lemma harris_needs_two_by_two_witness :
  harris_detector (IntArr UInt8 [[1; 2; 3; 4]]%Z) [] default_k default_threshold
  = None.
Proof.
  destruct (@harris_needs_two_by_two (IntArr UInt8 [[1; 2; 3; 4]]%Z) 10%Z []
              default_k default_threshold) as [Hnone _].
  - left. simpl. lia.
  - exact Hnone.
Defined.

Lemma getitem_out_of_range (a : grid R) (H W : nat) (y x : Z) :
  rectangular a H W -> (1 <= H)%nat ->
  (x < - Z.of_nat W \/ Z.of_nat W <= x \/ y < - Z.of_nat H \/ Z.of_nat H <= y)%Z ->
  getitem a y x = None.
Proof.
  intros Hr HH Hout. unfold getitem, np_index.
  replace (height a) with H by (symmetry; apply Hr).
  rewrite (rectangular_width Hr HH).
  destruct (Z.leb_spec 0 y); destruct (Z.ltb_spec y (Z.of_nat H));
    destruct (Z.leb_spec (- Z.of_nat H) y); destruct (Z.ltb_spec y 0);
    destruct (Z.leb_spec 0 x); destruct (Z.ltb_spec x (Z.of_nat W));
    destruct (Z.leb_spec (- Z.of_nat W) x); destruct (Z.ltb_spec x 0);
    cbn [andb]; try reflexivity; lia.
Qed.

Lemma filter_loop_fails (Ixx Iyy Ixy : grid R) (k threshold : R)
      (keypoints : list (Z * Z)) (p : Z * Z) :
  In p keypoints -> response Ixx Iyy Ixy k (fst p) (snd p) = None ->
  filter_loop Ixx Iyy Ixy k threshold keypoints = None.
Proof.
  intros Hin Hp. induction keypoints as [|[x y] rest IH]; [contradiction|].
  cbn [filter_loop]. destruct Hin as [Heq|Hin].
  - subst p. cbn [fst snd] in Hp. now rewrite Hp.
  - destruct (response Ixx Iyy Ixy k x y); [|reflexivity].
    now rewrite (IH Hin).
Qed.

(** X15.  One candidate outside the index range of the image (a
    coordinate below [-W] or [-H], or at least [W] or [H]) makes the whole
    call fail; no candidate is silently skipped. *)
Theorem harris_candidate_out_of_range
        (image : ndarray) (keypoints : list (Z * Z)) (k threshold : R)
        (H W : nat) (p : Z * Z) :
  rectangular (as_real image) H W -> (2 <= H)%nat -> (2 <= W)%nat ->
  In p keypoints ->
  (fst p < - Z.of_nat W \/ Z.of_nat W <= fst p
   \/ snd p < - Z.of_nat H \/ Z.of_nat H <= snd p)%Z ->
  harris_detector image keypoints k threshold = None.
Proof.
  intros Hr HH HW Hin Hout.
  destruct (structure_tensor_shape image Hr HH HW)
    as [Ixx [Iyy [Ixy [Ht [Hxx [Hyy Hxy]]]]]].
  unfold harris_detector. rewrite Ht.
  rewrite (filter_loop_fails Ixx Iyy Ixy k threshold keypoints p Hin);
    [reflexivity|].
  unfold response.
  now rewrite (@getitem_out_of_range Ixx H W (snd p) (fst p) Hxx ltac:(lia) Hout).
Qed.

Lemma harris_candidate_out_of_range_witness :
  harris_detector (IntArr UInt8 [[1; 2]; [3; 4]]%Z) [(0, 0); (2, 0)]%Z
                  default_k default_threshold
  = None.
Proof.
  apply (@harris_candidate_out_of_range
           (IntArr UInt8 [[1; 2]; [3; 4]]%Z) [(0, 0); (2, 0)]%Z
           default_k default_threshold 2 2 (2, 0)%Z).
  - split; [reflexivity | repeat constructor].
  - lia.
  - lia.
  - right. now left.
  - simpl. lia.
Defined.

(** ** Flat image *)

Lemma tabulate_const (A : Type) (f : nat -> nat -> A) (c : A) (H W : nat) :
  (forall i j, (i < H)%nat -> (j < W)%nat -> f i j = c) ->
  map (fun i => map (fun j => f i j) (seq 0 W)) (seq 0 H) = const_grid H W c.
Proof.
  intros Hf. unfold const_grid.
  rewrite <- (map_seq_const (repeat c W) H).
  apply map_ext_in. intros i Hi. apply in_seq in Hi.
  rewrite <- (map_seq_const c W).
  apply map_ext_in. intros j Hj. apply in_seq in Hj.
  apply Hf; lia.
Qed.

Lemma gradient_at_const (n : nat) (f : nat -> R) (c : R) (i : nat) :
  (2 <= n)%nat -> (i < n)%nat -> (forall k, (k < n)%nat -> f k = c) ->
  gradient_at n f i = 0%R.
Proof.
  intros Hn Hi Hf. unfold gradient_at.
  destruct (Nat.eqb_spec i 0); [rewrite !Hf by lia; ring|].
  destruct (Nat.eqb_spec i (n - 1)); [rewrite !Hf by lia; ring|].
  rewrite !Hf by lia. field.
Qed.

Lemma gradients_of_constant (H W : nat) (c : R) :
  (2 <= H)%nat -> (2 <= W)%nat ->
  gradient_axis1 (const_grid H W c) = Some (const_grid H W 0%R)
  /\ gradient_axis0 (const_grid H W c) = Some (const_grid H W 0%R).
Proof.
  intros HH HW.
  pose proof (rectangular_const H W c) as Hr.
  assert (Hh : height (const_grid H W c) = H) by apply Hr.
  assert (Hw : width (const_grid H W c) = W)
    by (apply (rectangular_width Hr); lia).
  unfold gradient_axis1, gradient_axis0. rewrite Hh, Hw.
  destruct (Nat.ltb_spec W 2); [lia|].
  destruct (Nat.ltb_spec H 2); [lia|].
  split; apply f_equal; apply tabulate_const; intros i j Hi Hj.
  - apply gradient_at_const with (c := c); try lia.
    intros k Hk. now apply cell_const.
  - apply gradient_at_const with (c := c); try lia.
    intros k Hk. now apply cell_const.
Qed.

Lemma grid_mul_const (H W : nat) (a b : R) :
  grid_mul (const_grid H W a) (const_grid H W b) = const_grid H W (a * b)%R.
Proof.
  unfold grid_mul, const_grid.
  assert (Hrow : forall n (u v : R),
             map (fun p => (fst p * snd p)%R) (combine (repeat u n) (repeat v n))
             = repeat (u * v)%R n).
  { induction n as [|n IH]; intros u v; cbn; [reflexivity | now rewrite IH]. }
  induction H as [|H IH]; cbn; [reflexivity|].
  now rewrite Hrow, IH.
Qed.

Lemma gaussian_blur_zero (H W : nat) :
  (1 <= H)%nat -> (1 <= W)%nat ->
  gaussian_blur (FloatArr (const_grid H W 0%R)) 5 1
  = Some (FloatArr (const_grid H W 0%R)).
Proof.
  intros HH HW. unfold gaussian_blur, convolve.
  rewrite convolve_cells_const; try assumption.
  - reflexivity.
  - apply ConvProps.gaussian_kernel_shape.
  - apply gaussian_kernel_normalised; [lia | lra].
Qed.

(** X16.  On a flat image (every pixel the same value) of at least 2x2
    pixels, the three smoothed second-moment arrays are zero, so with a
    threshold of 0 or more no candidate is kept: the result is the empty
    list, whatever [k] is. *)
Theorem harris_flat_image (image : ndarray) (keypoints : list (Z * Z))
        (k threshold c : R) (H W : nat) :
  as_real image = const_grid H W c -> (2 <= H)%nat -> (2 <= W)%nat ->
  Forall (in_image image) keypoints ->
  (0 <= threshold)%R ->
  structure_tensor image
  = Some (const_grid H W 0%R, const_grid H W 0%R, const_grid H W 0%R)
  /\ harris_detector image keypoints k threshold = Some [].
Proof.
  intros Himg HH HW Hkps Hthr.
  assert (Ht : structure_tensor image
               = Some (const_grid H W 0%R, const_grid H W 0%R,
                       const_grid H W 0%R)).
  { unfold structure_tensor. rewrite Himg.
    destruct (gradients_of_constant c HH HW) as [-> ->].
    rewrite grid_mul_const. replace (0 * 0)%R with 0%R by ring.
    rewrite gaussian_blur_zero by lia. reflexivity. }
  split; [exact Ht|].
  assert (Hr : rectangular (as_real image) H W)
    by (rewrite Himg; apply rectangular_const).
  destruct (@harris_detector_result image keypoints k threshold H W
              Hr HH HW Hkps)
    as [Ixx [Iyy [Ixy [Ht' [_ [_ [_ Hout]]]]]]].
  rewrite Ht in Ht'. injection Ht' as <- <- <-.
  rewrite Hout. f_equal.
  replace (filter _ keypoints) with (@nil (Z * Z)); [reflexivity|].
  symmetry. apply FastProps.no_In_nil. intros p Hp.
  apply filter_In in Hp. destruct Hp as [Hin Habove].
  rewrite Forall_forall in Hkps. destruct (Hkps p Hin) as [Hx Hy].
  rewrite Himg in Hx, Hy.
  pose proof (rectangular_const H W c) as Hc.
  rewrite (rectangular_width Hc) in Hx by lia.
  replace (height (const_grid H W c)) with H in Hy by (symmetry; apply Hc).
  unfold above, response_at in Habove.
  rewrite !cell_const in Habove by lia.
  destruct (Rgt_dec _ threshold) as [Hgt|_]; [|discriminate].
  replace (0 * 0 - 0 ^ 2 - k * (0 + 0) ^ 2)%R with 0%R in Hgt by ring.
  lra.
Qed.

Lemma harris_flat_image_witness :
  harris_detector (IntArr UInt8 (const_grid 3 3 7%Z)) [(1, 1); (0, 2)]%Z
                  default_k default_threshold
  = Some [].
Proof.
  destruct (@harris_flat_image (IntArr UInt8 (const_grid 3 3 7%Z))
              [(1, 1); (0, 2)]%Z default_k default_threshold 7%R 3 3)
    as [_ Hout].
  - reflexivity.
  - lia.
  - lia.
  - repeat constructor; simpl; lia.
  - unfold default_threshold. lra.
  - exact Hout.
Defined.

(** ** Ties *)






(** ** Negative coordinates *)

Lemma np_index_negative (n : nat) (i : Z) :
  (0 <= i < Z.of_nat n)%Z ->
  np_index n (i - Z.of_nat n) = np_index n i.
Proof.
  intros Hi. unfold np_index.
  destruct (Z.leb_spec 0 (i - Z.of_nat n)); [lia|].
  destruct (Z.leb_spec (- Z.of_nat n) (i - Z.of_nat n)); [|lia].
  destruct (Z.ltb_spec (i - Z.of_nat n) 0); [|lia].
  destruct (Z.leb_spec 0 i); [|lia].
  destruct (Z.ltb_spec i (Z.of_nat n)); [|lia].
  cbn [andb]. f_equal. lia.
Qed.

(** X18.  A candidate with negative coordinates is not rejected: for a
    pixel [(x, y)] of the image, the candidate [(x - W, y - H)] is scored
    with the values read at [(x, y)], and is kept or dropped like it. *)
Theorem harris_negative_candidate
        (image : ndarray) (k threshold : R) (H W : nat) (x y : Z) :
  rectangular (as_real image) H W -> (2 <= H)%nat -> (2 <= W)%nat ->
  (0 <= x < Z.of_nat W)%Z -> (0 <= y < Z.of_nat H)%Z ->
  exists Ixx Iyy Ixy,
    structure_tensor image = Some (Ixx, Iyy, Ixy)
    /\ harris_detector image [(x - Z.of_nat W, y - Z.of_nat H)%Z] k threshold
       = Some (if above threshold (response_at Ixx Iyy Ixy k (x, y))
               then [(x - Z.of_nat W, y - Z.of_nat H)%Z] else [])
    /\ harris_detector image [(x, y)] k threshold
       = Some (if above threshold (response_at Ixx Iyy Ixy k (x, y))
               then [(x, y)] else []).
Proof.
  intros Hr HH HW Hx Hy.
  destruct (structure_tensor_shape image Hr HH HW)
    as [Ixx [Iyy [Ixy [Ht [Hxx [Hyy Hxy]]]]]].
  exists Ixx, Iyy, Ixy. split; [exact Ht|].
  assert (Hresp : response Ixx Iyy Ixy k x y
                  = Some (response_at Ixx Iyy Ixy k (x, y))).
  { apply (@response_in_bounds Ixx Iyy Ixy H W k Hxx Hyy Hxy (x, y)).
    split; assumption. }
  assert (Hneg : response Ixx Iyy Ixy k (x - Z.of_nat W) (y - Z.of_nat H)
                 = response Ixx Iyy Ixy k x y).
  { unfold response, getitem.
    replace (height Ixx) with H by (symmetry; apply Hxx).
    replace (height Iyy) with H by (symmetry; apply Hyy).
    replace (height Ixy) with H by (symmetry; apply Hxy).
    rewrite (rectangular_width Hxx), (rectangular_width Hyy),
      (rectangular_width Hxy) by lia.
    now rewrite !np_index_negative by assumption. }
  unfold harris_detector. rewrite Ht. cbn [filter_loop].
  rewrite Hneg, Hresp. unfold above.
  split; destruct (Rgt_dec (response_at Ixx Iyy Ixy k (x, y)) threshold);
    reflexivity.
Qed.

Lemma harris_negative_candidate_witness :
  exists out,
    harris_detector (IntArr UInt8 [[1; 2]; [3; 4]]%Z) [(-1, -2)]%Z
                    default_k default_threshold
    = Some out.
Proof.
  assert (Hr : rectangular (as_real (IntArr UInt8 [[1; 2]; [3; 4]]%Z)) 2 2)
    by (split; [reflexivity | repeat constructor]).
  destruct (@harris_negative_candidate (IntArr UInt8 [[1; 2]; [3; 4]]%Z)
              default_k default_threshold 2 2 1%Z 0%Z Hr (le_n 2) (le_n 2))
    as [Ixx [Iyy [Ixy [_ [Hout _]]]]]; [lia | lia |].
  eexists. exact Hout.
Defined.

End HarrisProps.

(* ================================================================== *)
(** * Further properties of the orientation estimator *)
(* ================================================================== *)

Module OrientProps.
Import Np NpFacts ConvFacts Orient OrientFacts.
Local Open Scope Z_scope.

(** ** Range of the angle *)

Lemma atan2_range (y x : R) : (- PI < atan2 y x <= PI)%R.
Proof.
  unfold atan2. pose proof PI_RGT_0 as Hpi.
  destruct (Rlt_dec 0 x) as [Hx|Hx].
  - pose proof (atan_bound (y / x)). lra.
  - destruct (Rlt_dec x 0) as [Hx'|Hx'].
    + destruct (Rle_dec 0 y) as [Hy|Hy].
      * assert (Hq : (y / x <= 0)%R).
        { unfold Rdiv. replace 0%R with (y * 0)%R by ring.
          apply Rmult_le_compat_l; [exact Hy|].
          apply Rlt_le, Rinv_lt_0_compat, Hx'. }
        pose proof (atan_bound (y / x)) as Hb.
        assert (atan (y / x) <= 0)%R.
        { destruct Hq as [Hlt|Heq].
          - rewrite <- atan_0. now apply Rlt_le, atan_increasing.
          - rewrite Heq, atan_0. lra. }
        lra.
      * assert (Hq : (0 < y / x)%R).
        { unfold Rdiv. replace (y * / x)%R with ((- y) * (- / x))%R by ring.
          apply Rmult_lt_0_compat; [lra|].
          pose proof (Rinv_lt_0_compat x Hx'). lra. }
        pose proof (atan_bound (y / x)) as Hb.
        assert (0 < atan (y / x))%R
          by (rewrite <- atan_0; now apply atan_increasing).
        lra.
    + destruct (Rlt_dec 0 y); [lra|].
      destruct (Rlt_dec y 0); lra.
Qed.

(** X19.  For an odd patch size every orientation returned lies in the
    half-open interval from -pi (excluded) to pi (included). *)
Theorem calculate_orientation_range
        (image : grid Z) (keypoints : list (Z * Z)) (patch_size : Z) :
  Z.odd patch_size = true ->
  exists orientations : list R,
    calculate_orientation image keypoints patch_size = Some orientations
    /\ Forall (fun a => (- PI < a <= PI)%R) orientations.
Proof.
  intros Hodd. eexists. split; [now apply calculate_orientation_map|].
  apply Forall_map, Forall_forall. intros kp _.
  unfold orientation_value.
  destruct (full_patch image (fst kp) (snd kp) patch_size).
  - apply atan2_range.
  - pose proof PI_RGT_0. lra.
Qed.

Lemma calculate_orientation_range_witness :
  exists orientations : list R,
    calculate_orientation blob_right [(1, 1); (0, 2)] 3 = Some orientations
    /\ Forall (fun a => (- PI < a <= PI)%R) orientations.
Proof.
  apply calculate_orientation_range. reflexivity.
Defined.

(** ** The patch *)

Lemma nth_py_slice (A : Type) (d : A) (l : list A) (start stop : Z) (k : nat) :
  0 <= start -> stop <= Z.of_nat (length l) ->
  (Z.of_nat k < stop - start) ->
  nth k (py_slice l start stop) d = nth (Z.to_nat start + k) l d.
Proof.
  intros Hs He Hk. unfold py_slice, slice_len, slice_bound.
  destruct (Z.ltb_spec start 0); [lia|].
  destruct (Z.ltb_spec stop 0); [lia|].
  rewrite nth_firstn.
  destruct (Nat.ltb_spec k (Z.to_nat (Z.max 0
              (Z.min stop (Z.of_nat (length l))
               - Z.min start (Z.of_nat (length l)))))); [|lia].
  rewrite nth_skipn. f_equal. lia.
Qed.

(** X20.  When the patch around a keypoint fits in a rectangular image, the
    extracted patch is the square of side [2 * radius + 1] centred at the
    keypoint: its cell at row [a], column [b] is the image pixel at row
    [y - radius + a], column [x - radius + b]. *)
Theorem extract_patch_centred (image : grid Z) (H W : nat) (x y radius : Z)
        (a b : nat) :
  rectangular image H W -> 0 <= radius ->
  patch_fits image radius (x, y) ->
  Z.of_nat a <= 2 * radius -> Z.of_nat b <= 2 * radius ->
  rectangular (extract_patch image x y radius)
              (Z.to_nat (2 * radius + 1)) (Z.to_nat (2 * radius + 1))
  /\ cell 0 (extract_patch image x y radius) a b
     = cell 0 image (Z.to_nat (y - radius) + a) (Z.to_nat (x - radius) + b).
Proof.
  intros Hr Hrad [Hx1 [Hx2 [Hy1 Hy2]]] Ha Hb. cbn [fst snd] in *.
  assert (Hh : length image = H) by apply Hr.
  assert (HH : (1 <= H)%nat) by (unfold height in Hy2; lia).
  assert (Hw : width image = W) by (apply (rectangular_width Hr HH)).
  rewrite Hw in Hx2. unfold height in Hy2. rewrite Hh in Hy2.
  assert (Hrowlen : forall row, In row image -> length row = W).
  { destruct Hr as [_ Hall]. now rewrite Forall_forall in Hall. }
  split.
  - unfold extract_patch. split.
    + rewrite length_map, length_py_slice, Hh.
      f_equal. unfold slice_len, slice_bound.
      destruct (Z.ltb_spec (y + radius + 1) 0);
        destruct (Z.ltb_spec (y - radius) 0); lia.
    + apply Forall_map, Forall_forall. intros row Hrow.
      apply In_py_slice in Hrow.
      rewrite length_py_slice, (Hrowlen row Hrow).
      f_equal. unfold slice_len, slice_bound.
      destruct (Z.ltb_spec (x + radius + 1) 0);
        destruct (Z.ltb_spec (x - radius) 0); lia.
  - unfold cell, extract_patch.
    assert (Hrows : (a < length (py_slice image (y - radius) (y + radius + 1)))%nat).
    { rewrite length_py_slice, Hh. unfold slice_len, slice_bound.
      destruct (Z.ltb_spec (y + radius + 1) 0);
        destruct (Z.ltb_spec (y - radius) 0); lia. }
    rewrite (nth_indep _ [] (py_slice [] (x - radius) (x + radius + 1)))
      by (now rewrite length_map).
    rewrite (map_nth (fun row => py_slice row (x - radius) (x + radius + 1))).
    rewrite (nth_py_slice []) by lia.
    assert (Hrow : length (nth (Z.to_nat (y - radius) + a) image []) = W).
    { apply Hrowlen, nth_In. lia. }
    rewrite (nth_py_slice 0) by lia.
    reflexivity.
Qed.

Lemma extract_patch_centred_witness :
  cell 0 (extract_patch blob_right 1 1 1) 1 2 = cell 0 blob_right 1 2.
Proof.
  destruct (@extract_patch_centred blob_right 3 3 1 1 1 1%nat 2%nat)
    as [_ Hcell].
  - split; [reflexivity | repeat constructor].
  - lia.
  - unfold patch_fits. simpl. lia.
  - lia.
  - lia.
  - exact Hcell.
Defined.

(** X21.  For a rectangular image, an odd patch size and a keypoint whose
    patch passes the shape test, the value returned is the angle
    [atan2 (mc, mr)], where [mc] is the sum of the patch intensities times
    their column offset from the centre and [mr] the sum of the patch
    intensities times their row offset: the angle is measured from the
    downward row axis towards the column axis. *)
Theorem calculate_orientation_angle
        (image : grid Z) (H W : nat) (patch_size : Z) (kp : Z * Z) :
  rectangular image H W -> (1 <= H)%nat ->
  Z.odd patch_size = true ->
  full_patch image (fst kp) (snd kp) patch_size = true ->
  let patch := extract_patch image (fst kp) (snd kp) (patch_size / 2) in
  calculate_orientation image [kp] patch_size
  = Some [atan2 (IZR (spec_m10 patch (patch_size / 2)))
                (IZR (spec_m01 patch (patch_size / 2)))].
Proof.
  intros Hr HH Hodd Hfull patch.
  rewrite calculate_orientation_map by exact Hodd. cbn [map].
  f_equal. f_equal.
  exact (@orientation_value_swapped image H W patch_size kp Hr HH Hodd Hfull).
Qed.

Lemma calculate_orientation_angle_witness :
  calculate_orientation blob_left [(1, 1)] 3
  = Some [atan2 (IZR (spec_m10 (extract_patch blob_left 1 1 (3 / 2)) (3 / 2)))
                (IZR (spec_m01 (extract_patch blob_left 1 1 (3 / 2)) (3 / 2)))].
Proof.
  apply (@calculate_orientation_angle blob_left 3 3 3 (1, 1)).
  - split; [reflexivity | repeat constructor].
  - lia.
  - reflexivity.
  - vm_compute. reflexivity.
Defined.

(** ** Flat image *)

Lemma zsum_offsets (lo : Z) (n s : nat) :
  2 * zsum (map (fun k => lo + Z.of_nat k) (seq s n))
  = Z.of_nat n * (2 * lo + 2 * Z.of_nat s + Z.of_nat n - 1).
Proof.
  revert s. induction n as [|n IH]; intros s; cbn [seq map zsum fold_right].
  - lia.
  - fold (zsum (map (fun k => lo + Z.of_nat k) (seq (S s) n))).
    specialize (IH (S s)). nia.
Qed.

Lemma zsum_arange_symmetric (radius : Z) :
  zsum (arange (- radius) (radius + 1)) = 0.
Proof.
  unfold arange, py_range.
  pose proof (zsum_offsets (- radius) (Z.to_nat (radius + 1 - - radius)) 0) as Hs.
  destruct (Z_lt_le_dec radius 0) as [Hneg|Hpos].
  - replace (Z.to_nat (radius + 1 - - radius)) with 0%nat by lia. reflexivity.
  - rewrite Z2Nat.id in Hs by lia. nia.
Qed.

Lemma zsum_scale_l (c : Z) (l : list Z) :
  zsum (map (fun x => c * x) l) = c * zsum l.
Proof.
  induction l as [|x l IH]; cbn [map zsum fold_right]; [lia|].
  fold (zsum (map (fun x => c * x) l)). fold (zsum l). lia.
Qed.

Lemma zsum_scale_r (c : Z) (l : list Z) :
  zsum (map (fun x => x * c) l) = zsum l * c.
Proof.
  induction l as [|x l IH]; cbn [map zsum fold_right]; [lia|].
  fold (zsum (map (fun x => x * c) l)). fold (zsum l). lia.
Qed.

Lemma zsum_zero (B : Type) (f : B -> Z) (l : list B) :
  (forall x, In x l -> f x = 0) -> zsum (map f l) = 0.
Proof.
  induction l as [|x l IH]; intros H; cbn [map zsum fold_right]; [reflexivity|].
  fold (zsum (map f l)).
  rewrite (H x (or_introl eq_refl)), IH; [reflexivity|].
  intros y Hy. apply H. now right.
Qed.

Lemma py_slice_repeat (A : Type) (a : A) (n : nat) (start stop : Z) :
  exists m, py_slice (repeat a n) start stop = repeat a m.
Proof.
  unfold py_slice. rewrite repeat_length.
  set (k := Z.to_nat (slice_len _ _ _)).
  set (s := Z.to_nat (slice_bound _ _)).
  exists (Nat.min k (n - s)).
  assert (Hskip : forall s n, skipn s (repeat a n) = repeat a (n - s)).
  { clear. induction s as [|s IH]; intros [|n]; cbn; try reflexivity.
    apply IH. }
  assert (Hfirst : forall k n, firstn k (repeat a n) = repeat a (Nat.min k n)).
  { clear. induction k as [|k IH]; intros [|n]; cbn; try reflexivity.
    now rewrite IH. }
  now rewrite Hskip, Hfirst.
Qed.

Lemma extract_patch_const (H W : nat) (c x y radius : Z) :
  exists h w, extract_patch (const_grid H W c) x y radius = const_grid h w c.
Proof.
  unfold extract_patch, const_grid.
  destruct (py_slice_repeat (repeat c W) H (y - radius) (y + radius + 1))
    as [h ->].
  destruct (py_slice_repeat c W (x - radius) (x + radius + 1)) as [w Hw].
  exists h, w. rewrite map_repeat. now rewrite Hw.
Qed.

Lemma combine_repeat_l (A B : Type) (a : A) (n : nat) (l : list B) :
  (length l <= n)%nat -> combine (repeat a n) l = map (fun b => (a, b)) l.
Proof.
  revert n. induction l as [|b l IH]; intros n Hn.
  - destruct n; reflexivity.
  - destruct n as [|n]; [simpl in Hn; lia|].
    cbn. f_equal. apply IH. simpl in Hn. lia.
Qed.

Lemma moments_of_constant (h w : nat) (c radius : Z) :
  length (arange (- radius) (radius + 1)) = h ->
  length (arange (- radius) (radius + 1)) = w ->
  m10 (const_grid h w c) radius = 0 /\ m01 (const_grid h w c) radius = 0.
Proof.
  intros Hh Hw.
  pose proof (zsum_arange_symmetric radius) as Hsym.
  set (ar := arange (- radius) (radius + 1)) in *.
  split.
  - unfold m10, const_grid. fold ar.
    rewrite combine_repeat_l by lia. rewrite map_map. cbn [fst snd].
    rewrite (map_ext _ (fun o => zsum (repeat c w) * o))
      by (intros o; apply zsum_scale_r).
    rewrite zsum_scale_l, Hsym. lia.
  - unfold m01. apply zsum_zero. intros row Hrow.
    unfold const_grid in Hrow. apply repeat_spec in Hrow. subst row.
    fold ar. rewrite combine_repeat_l by lia. rewrite map_map. cbn [fst snd].
    rewrite zsum_scale_l, Hsym. lia.
Qed.

(** X22.  On a flat image every orientation is 0, for every odd patch size
    and every keypoint list: a full patch of a flat image has both moments
    equal to 0, so that a keypoint in the interior gets the same value as
    the sentinel of a keypoint near the border. *)
Theorem calculate_orientation_flat_image
        (H W : nat) (c : Z) (keypoints : list (Z * Z)) (patch_size : Z) :
  Z.odd patch_size = true ->
  calculate_orientation (const_grid H W c) keypoints patch_size
  = Some (repeat 0%R (length keypoints)).
Proof.
  intros Hodd. rewrite calculate_orientation_map by exact Hodd. f_equal.
  induction keypoints as [|kp rest IH]; [reflexivity|].
  cbn [map length repeat]. rewrite IH. f_equal.
  unfold orientation_value.
  destruct (full_patch (const_grid H W c) (fst kp) (snd kp) patch_size)
           eqn:Hfull; [|reflexivity].
  set (radius := patch_size / 2).
  destruct (extract_patch_const H W c (fst kp) (snd kp) radius) as [h [w Hp]].
  assert (Hshape : rectangular
                     (extract_patch (const_grid H W c) (fst kp) (snd kp) radius)
                     (Z.to_nat patch_size) (Z.to_nat patch_size)).
  { destruct H as [|H'].
    - unfold full_patch, patch_shape in Hfull.
      cbn [const_grid repeat height width length hd] in Hfull.
      apply andb_true_iff in Hfull. rewrite !Z.eqb_eq in Hfull.
      pose proof (odd_patch_size _ Hodd).
      unfold slice_len, slice_bound in Hfull.
      destruct (Z.ltb_spec (snd kp + patch_size / 2 + 1) 0);
        destruct (Z.ltb_spec (snd kp - patch_size / 2) 0); lia.
    - apply (@extract_patch_rectangular (const_grid (S H') W c) (S H') W);
        [apply rectangular_const | lia | exact Hfull]. }
  assert (Hps : 0 < patch_size).
  { unfold full_patch, patch_shape in Hfull.
    apply andb_true_iff in Hfull. rewrite !Z.eqb_eq in Hfull.
    pose proof (slice_len_nonneg (Z.of_nat (height (const_grid H W c)))
                  (snd kp - patch_size / 2) (snd kp + patch_size / 2 + 1)).
    pose proof (odd_patch_size _ Hodd). lia. }
  rewrite Hp in Hshape |- *.
  pose proof (rectangular_const h w c) as Hc.
  assert (Hh : h = Z.to_nat patch_size).
  { destruct Hshape as [Hl _]. destruct Hc as [Hl' _]. congruence. }
  assert (Hw : w = Z.to_nat patch_size).
  { rewrite <- (rectangular_width Hshape) by lia.
    apply eq_sym, (rectangular_width Hc). lia. }
  assert (Hlen : length (arange (- radius) (radius + 1)) = Z.to_nat patch_size).
  { rewrite length_arange. f_equal.
    pose proof (odd_patch_size _ Hodd). unfold radius. lia. }
  destruct (@moments_of_constant h w c radius) as [-> ->]; try congruence.
  unfold atan2.
  destruct (Rlt_dec 0 0); [lra|].
  destruct (Rlt_dec 0 0); [lra|]. reflexivity.
Qed.

Lemma calculate_orientation_flat_image_witness :
  calculate_orientation (const_grid 5 5 100) [(2, 2); (0, 0); (1, 3)] 3
  = Some [0%R; 0%R; 0%R].
Proof.
  exact (@calculate_orientation_flat_image 5 5 100 [(2, 2); (0, 0); (1, 3)] 3
           eq_refl).
Defined.

(** ** Even patch size *)

Lemma even_patch_size (patch_size : Z) :
  Z.even patch_size = true -> patch_size = 2 * (patch_size / 2).
Proof.
  intros Heven. rewrite (Z.div_mod patch_size 2) at 1 by lia.
  rewrite Zmod_even, Heven. lia.
Qed.

Lemma slice_len_clipped (n c radius : Z) :
  0 <= n -> 0 <= c -> 1 <= radius ->
  slice_len n (c - radius) (c + radius + 1) = 2 * radius
  <-> c = n - radius /\ radius <= c.
Proof.
  intros Hn Hc Hr. unfold slice_len, slice_bound.
  destruct (Z.ltb_spec (c + radius + 1) 0);
    destruct (Z.ltb_spec (c - radius) 0); lia.
Qed.

Lemma full_patch_even (image : grid Z) (patch_size : Z) (kp : Z * Z) :
  Z.even patch_size = true -> 2 <= patch_size -> pixel_coordinate kp ->
  full_patch image (fst kp) (snd kp) patch_size = true
  <-> (fst kp = Z.of_nat (width image) - patch_size / 2
       /\ patch_size / 2 <= fst kp)
      /\ (snd kp = Z.of_nat (height image) - patch_size / 2
          /\ patch_size / 2 <= snd kp).
Proof.
  intros Heven Hps [Hx Hy].
  pose proof (even_patch_size _ Heven) as H2.
  unfold full_patch, patch_shape.
  set (radius := patch_size / 2) in *.
  rewrite andb_true_iff, !Z.eqb_eq.
  rewrite H2 at 1 2.
  rewrite !slice_len_clipped by lia. tauto.
Qed.

(** X23.  With an even patch size of at least 2 the estimator never
    computes an angle.  Among keypoints at pixel coordinates only the one
    at [(W - radius, H - radius)] passes the shape test (its patch is
    clipped to [patch_size] rows and columns), and there the product with
    the [patch_size + 1] weights fails; every other keypoint gets 0. *)
Theorem calculate_orientation_even_patch_size
        (image : grid Z) (keypoints : list (Z * Z)) (patch_size : Z) :
  Z.even patch_size = true -> 2 <= patch_size ->
  Forall pixel_coordinate keypoints ->
  let corner := (Z.of_nat (width image) - patch_size / 2,
                 Z.of_nat (height image) - patch_size / 2) in
  (~ In corner keypoints ->
   calculate_orientation image keypoints patch_size
   = Some (repeat 0%R (length keypoints)))
  /\ (In corner keypoints -> pixel_coordinate corner ->
      patch_size <= Z.of_nat (width image) ->
      patch_size <= Z.of_nat (height image) ->
      calculate_orientation image keypoints patch_size = None).
Proof.
  intros Heven Hps Hkps corner.
  pose proof (even_patch_size _ Heven) as H2.
  assert (Hone : forall kp, pixel_coordinate kp ->
             orientation_of image patch_size kp
             = if full_patch image (fst kp) (snd kp) patch_size
               then None else Some 0%R).
  { intros [x y] _. unfold orientation_of. cbn [fst snd].
    rewrite Heven. destruct (Z.leb_spec 2 patch_size); [|lia].
    cbn [andb]. now destruct (full_patch image x y patch_size). }
  split.
  - intros Hnot. induction keypoints as [|kp rest IH]; [reflexivity|].
    cbn [calculate_orientation length repeat].
    assert (Hpix : pixel_coordinate kp) by (now inversion Hkps).
    rewrite (Hone kp Hpix).
    destruct (full_patch image (fst kp) (snd kp) patch_size) eqn:Hfull.
    + exfalso. apply Hnot. left.
      apply (@full_patch_even image patch_size kp Heven Hps Hpix) in Hfull.
      destruct kp as [x y]. cbn [fst snd] in Hfull. unfold corner.
      f_equal; lia.
    + rewrite IH; [reflexivity | now inversion Hkps |].
      intros Hin. apply Hnot. now right.
  - intros Hin Hcorner Hw Hh.
    assert (Hfull : full_patch image (fst corner) (snd corner) patch_size = true).
    { apply (@full_patch_even image patch_size corner Heven Hps Hcorner).
      unfold corner. cbn [fst snd]. lia. }
    induction keypoints as [|kp rest IH]; [contradiction|].
    cbn [calculate_orientation].
    assert (Hpix : pixel_coordinate kp) by (now inversion Hkps).
    rewrite (Hone kp Hpix).
    destruct Hin as [->|Hin]; [now rewrite Hfull|].
    destruct (full_patch image (fst kp) (snd kp) patch_size); [reflexivity|].
    rewrite IH; [reflexivity | now inversion Hkps | exact Hin].
Qed.

Lemma calculate_orientation_even_patch_size_witness :
  calculate_orientation blob_right [(1, 1); (2, 2)] 2 = None.
Proof.
  destruct (@calculate_orientation_even_patch_size
              blob_right [(1, 1); (2, 2)] 2 eq_refl)
    as [_ Hfail].
  - lia.
  - repeat constructor; simpl; lia.
  - apply Hfail.
    + right. now left.
    + unfold pixel_coordinate. simpl. lia.
    + simpl. lia.
    + simpl. lia.
Defined.

(** ** Negative coordinates *)

Lemma py_slice_negative (A : Type) (l : list A) (c radius : Z) :
  0 <= radius -> radius <= c -> c + radius + 1 < Z.of_nat (length l) ->
  py_slice l (c - Z.of_nat (length l) - radius)
             (c - Z.of_nat (length l) + radius + 1)
  = py_slice l (c - radius) (c + radius + 1).
Proof.
  intros H0 H1 H2. unfold py_slice, slice_len, slice_bound.
  set (n := Z.of_nat (length l)) in *.
  destruct (Z.ltb_spec (c - n - radius) 0);
    destruct (Z.ltb_spec (c - n + radius + 1) 0);
    destruct (Z.ltb_spec (c - radius) 0);
    destruct (Z.ltb_spec (c + radius + 1) 0); try lia.
  match goal with
  | |- firstn ?a (skipn ?s l) = firstn ?b (skipn ?t l) =>
      replace a with b by lia; replace s with t by lia; reflexivity
  end.
Qed.

Lemma slice_len_negative (n c radius : Z) :
  0 <= radius -> radius <= c -> c + radius + 1 < n ->
  slice_len n (c - n - radius) (c - n + radius + 1)
  = slice_len n (c - radius) (c + radius + 1).
Proof.
  intros H0 H1 H2. unfold slice_len, slice_bound.
  destruct (Z.ltb_spec (c - n - radius) 0);
    destruct (Z.ltb_spec (c - n + radius + 1) 0);
    destruct (Z.ltb_spec (c - radius) 0);
    destruct (Z.ltb_spec (c + radius + 1) 0); lia.
Qed.

(** X24.  A keypoint with negative coordinates is not given the sentinel:
    if the patch around the pixel [(x, y)] fits with one column and one row
    to spare on the right and at the bottom, the keypoint
    [(x - W, y - H)] gets the patch, and so the orientation, of
    [(x, y)]. *)
Theorem calculate_orientation_negative_keypoint
        (image : grid Z) (H W : nat) (patch_size x y : Z) :
  rectangular image H W -> 0 <= patch_size ->
  patch_size / 2 <= x -> x + patch_size / 2 + 1 < Z.of_nat W ->
  patch_size / 2 <= y -> y + patch_size / 2 + 1 < Z.of_nat H ->
  extract_patch image (x - Z.of_nat W) (y - Z.of_nat H) (patch_size / 2)
  = extract_patch image x y (patch_size / 2)
  /\ calculate_orientation image [(x - Z.of_nat W, y - Z.of_nat H)] patch_size
     = calculate_orientation image [(x, y)] patch_size.
Proof.
  intros Hr Hps Hx1 Hx2 Hy1 Hy2.
  assert (Hrad : 0 <= patch_size / 2) by (apply Z.div_pos; lia).
  set (radius := patch_size / 2) in *.
  assert (Hh : length image = H) by apply Hr.
  assert (HH : (1 <= H)%nat) by lia.
  assert (Hw : width image = W) by (apply (rectangular_width Hr HH)).
  assert (Hpatch : extract_patch image (x - Z.of_nat W) (y - Z.of_nat H) radius
                   = extract_patch image x y radius).
  { unfold extract_patch.
    rewrite <- Hh at 1 2. rewrite py_slice_negative by lia.
    apply map_ext_in. intros row Hrow. apply In_py_slice in Hrow.
    destruct Hr as [_ Hall]. rewrite Forall_forall in Hall.
    rewrite <- (Hall row Hrow) at 1 2.
    apply py_slice_negative; try rewrite (Hall row Hrow); lia. }
  split; [exact Hpatch|].
  cbn [calculate_orientation]. unfold orientation_of. fold radius.
  rewrite Hpatch.
  replace (full_patch image (x - Z.of_nat W) (y - Z.of_nat H) patch_size)
    with (full_patch image x y patch_size); [reflexivity|].
  unfold full_patch, patch_shape. fold radius.
  unfold height. rewrite Hh, Hw.
  now rewrite !slice_len_negative by lia.
Qed.

Lemma calculate_orientation_negative_keypoint_witness :
  calculate_orientation (const_grid 5 5 1) [(1 - 5, 1 - 5)] 3
  = calculate_orientation (const_grid 5 5 1) [(1, 1)] 3.
Proof.
  destruct (@calculate_orientation_negative_keypoint
              (const_grid 5 5 1) 5 5 3 1 1)
    as [_ Heq].
  - apply rectangular_const.
  - lia.
  - apply Z.leb_le. reflexivity.
  - apply Z.ltb_lt. reflexivity.
  - apply Z.leb_le. reflexivity.
  - apply Z.ltb_lt. reflexivity.
  - exact Heq.
Defined.

End OrientProps.

(* ================================================================== *)
(** * Further properties of the descriptor generator *)
(* ================================================================== *)

Module BriefProps.
Import Np NpFacts ConvFacts Orient OrientFacts Brief BriefFacts.
Local Open Scope Z_scope.

(** ** Shared lemmas *)

Lemma brief_descriptor_result (image : grid Z) (keypoints : list (Z * Z))
      (orientations : list R) (patch_size : Z) (random_points : list (Z * Z)) :
  1 <= patch_size / 2 ->
  brief_descriptor image keypoints orientations patch_size
                   (length random_points) random_points
  = Some (map (fun p => descriptor_bits image patch_size random_points
                                        (fst p) (snd p))
              (filter (fun p => full_patch image (fst (fst p)) (snd (fst p))
                                           patch_size)
                      (combine keypoints orientations))).
Proof.
  intros Hr. unfold brief_descriptor.
  destruct (Z.leb_spec (patch_size / 2) 0); [lia|].
  now rewrite flat_map_descriptors.
Qed.

Lemma brief_bit_is_bit (patch : grid Z) (radius patch_size : Z) (d : Z * Z) :
  is_bit (brief_bit patch radius patch_size d).
Proof.
  unfold brief_bit, is_bit. destruct d as [dx dy].
  destruct (_ && _); [|now left].
  destruct (_ >? _); [now right | now left].
Qed.

Lemma descriptor_bits_are_bits (image : grid Z) (patch_size : Z)
      (random_points : list (Z * Z)) (kp : Z * Z) (angle : R) :
  Forall is_bit (descriptor_bits image patch_size random_points kp angle).
Proof.
  unfold descriptor_bits. destruct kp as [x y].
  apply Forall_map, Forall_forall. intros d _. apply brief_bit_is_bit.
Qed.

(** X25.  Whatever the input, a descriptor that is returned consists of
    bits: every entry is 0 or 1, and there are exactly [n] of them. *)
Theorem brief_descriptor_bits
        (image : grid Z) (keypoints : list (Z * Z)) (orientations : list R)
        (patch_size : Z) (n : nat) (random_points : list (Z * Z))
        (descriptors : list (list Z)) :
  brief_descriptor image keypoints orientations patch_size n random_points
  = Some descriptors ->
  Forall (fun d => length d = n /\ Forall is_bit d) descriptors.
Proof.
  unfold brief_descriptor.
  destruct (patch_size / 2 <=? 0); [discriminate|].
  intros Hsome. injection Hsome as <-.
  apply Forall_forall. intros d Hd.
  apply in_flat_map in Hd. destruct Hd as [p [_ Hd]].
  unfold descriptor_of in Hd.
  destruct (negb _); [contradiction|].
  destruct (Nat.eqb_spec
              (length (descriptor_bits image patch_size random_points
                                       (fst p) (snd p))) n) as [Hlen|Hlen];
    [|contradiction].
  destruct Hd as [<-|[]]. split; [exact Hlen|].
  apply descriptor_bits_are_bits.
Qed.

Lemma brief_descriptor_bits_witness :
  Forall (fun d => length d = 2%nat /\ Forall is_bit d) [[1; 0]].
Proof.
  apply (@brief_descriptor_bits blob_left [(1, 1); (0, 2)] [0%R; 0%R] 3 2
           [(-1, 0); (0, -1)] [[1; 0]]).
  apply brief_descriptor_blob_left.
Defined.

(** ** Rotation *)



(** ** Unrotated pattern *)

(** X27.  At orientation 0 (in particular for every sentinel orientation)
    and with an odd patch size, the fallback bit is never used: each pair
    [(a, b)] of a pattern with coordinates in [-radius .. radius - 1] stays
    in the patch, and its bit is 1 exactly when the patch intensity at
    column [radius + a], row [radius + b] is strictly greater than the one
    at column [radius - a], row [radius - b]. *)
Theorem descriptor_bits_unrotated
        (image : grid Z) (patch_size : Z) (n : nat)
        (random_points : list (Z * Z)) (kp : Z * Z) :
  Z.odd patch_size = true ->
  valid_pattern (patch_size / 2) n random_points ->
  let radius := patch_size / 2 in
  let patch := extract_patch image (fst kp) (snd kp) radius in
  descriptor_bits image patch_size random_points kp 0%R
  = map (fun p =>
           if patch_at patch (radius + snd p) (radius + fst p)
              >? patch_at patch (radius - snd p) (radius - fst p)
           then 1 else 0)
        random_points.
Proof.
  intros Hodd [_ Hvalid] radius patch.
  pose proof (odd_patch_size _ Hodd) as Hps. fold radius in Hps.
  unfold descriptor_bits. destruct kp as [x y]. cbn [fst snd] in *.
  fold radius. fold patch. rewrite map_map.
  apply map_ext_in. intros [a b] Hin.
  rewrite rotate_point_zero.
  rewrite Forall_forall in Hvalid. specialize (Hvalid _ Hin).
  cbn [fst snd] in *. unfold brief_bit.
  destruct (Z.leb_spec 0 (radius + a)); [|lia].
  destruct (Z.ltb_spec (radius + a) patch_size); [|lia].
  destruct (Z.leb_spec 0 (radius + b)); [|lia].
  destruct (Z.ltb_spec (radius + b) patch_size); [|lia].
  destruct (Z.leb_spec 0 (radius - a)); [|lia].
  destruct (Z.ltb_spec (radius - a) patch_size); [|lia].
  destruct (Z.leb_spec 0 (radius - b)); [|lia].
  destruct (Z.ltb_spec (radius - b) patch_size); [|lia].
  reflexivity.
Qed.

Lemma descriptor_bits_unrotated_witness :
  descriptor_bits blob_left 3 [(-1, 0); (0, -1)] (1, 1) 0%R = [1; 0].
Proof.
  assert (Hodd : Z.odd 3 = true) by reflexivity.
  assert (Hvalid : valid_pattern (3 / 2) 2 [(-1, 0); (0, -1)]).
  { split; [reflexivity|]. repeat constructor; cbn; lia. }
  rewrite (@descriptor_bits_unrotated blob_left 3 2 [(-1, 0); (0, -1)] (1, 1)
             Hodd Hvalid).
  vm_compute. reflexivity.
Defined.

(** ** Sequences of different length *)

(** X28.  Keypoints and orientations are paired by position up to the end
    of the shorter sequence; a surplus of either is ignored without an
    error. *)
Theorem brief_descriptor_truncates
        (image : grid Z) (keypoints : list (Z * Z)) (orientations : list R)
        (patch_size : Z) (n : nat) (random_points : list (Z * Z)) :
  let m := Nat.min (length keypoints) (length orientations) in
  brief_descriptor image keypoints orientations patch_size n random_points
  = brief_descriptor image (firstn m keypoints) (firstn m orientations)
                     patch_size n random_points.
Proof.
  intros m. unfold brief_descriptor.
  destruct (patch_size / 2 <=? 0); [reflexivity|]. f_equal. f_equal.
  rewrite <- combine_firstn.
  rewrite firstn_all2; [reflexivity|].
  rewrite length_combine. unfold m. lia.
Qed.

End BriefProps.

(* ================================================================== *)
(** * The script as a whole *)
(* ================================================================== *)

Module PipelineProps.
Import Np NpFacts Conv ConvFacts Fast Harris Orient OrientFacts Brief BriefFacts.
Local Open Scope Z_scope.

Lemma gaussian_blur_int_shape (dt : int_dtype) (g : grid Z) (H W size : nat)
      (sigma : R) :
  rectangular g H W -> (1 <= H)%nat -> (1 <= W)%nat ->
  exists out,
    gaussian_blur (IntArr dt g) size sigma = Some (IntArr dt out)
    /\ rectangular out H W.
Proof.
  intros Hg HH HW. unfold gaussian_blur, convolve.
  destruct (@convolve_cells_shape (map (map IZR) g)
              (gaussian_kernel size sigma)) as [out [Hout Hshape]].
  - rewrite height_map_map. destruct Hg as [Hlen _]. unfold height. lia.
  - rewrite width_map_map, (rectangular_width Hg HH). lia.
  - rewrite Hout. cbn [option_map]. eexists. split; [reflexivity|].
    apply rectangular_map.
    rewrite height_map_map, width_map_map in Hshape.
    rewrite (rectangular_width Hg HH) in Hshape.
    destruct Hg as [Hlen _]. unfold height in Hshape.
    now rewrite Hlen in Hshape.
Qed.

Lemma full_patch_fits31 (image : grid Z) (H W : nat) (p : Z * Z) :
  rectangular image H W -> (1 <= H)%nat -> pixel_coordinate p ->
  full_patch image (fst p) (snd p) 31 = Pipeline.fits31 H W p.
Proof.
  intros Hr HH Hp.
  pose proof (@full_patch_fits image 31 p eq_refl Hp) as Hiff.
  unfold patch_fits in Hiff. change (31 / 2) with 15 in Hiff.
  rewrite (rectangular_width Hr HH) in Hiff.
  replace (height image) with H in Hiff by (symmetry; apply Hr).
  unfold Pipeline.fits31.
  destruct (full_patch image (fst p) (snd p) 31).
  - destruct Hiff as [Hto _]. specialize (Hto eq_refl).
    symmetry. rewrite !andb_true_iff, !Z.leb_le, !Z.ltb_lt. lia.
  - symmetry. apply not_true_is_false. intros Hfit.
    rewrite !andb_true_iff, !Z.leb_le, !Z.ltb_lt in Hfit.
    destruct Hiff as [_ Hfrom]. discriminate Hfrom. lia.
Qed.

(** X29.  On a rectangular image of at least 2x2 pixels and with a pattern
    of 256 pairs the script runs through.  The keypoints are distinct
    pixels at least 3 pixels away from every border, there is one
    orientation per keypoint, and there is one descriptor of 256 bits for
    each keypoint whose 31x31 patch fits in the image (at least 15 pixels
    away from every border), and none for the others. *)
Theorem run_succeeds (image : grid Z) (random_points : list (Z * Z))
        (H W : nat) :
  rectangular image H W -> (2 <= H)%nat -> (2 <= W)%nat ->
  length random_points = 256%nat ->
  exists keypoints orientations descriptors,
    Pipeline.run image random_points
    = Some (keypoints, orientations, descriptors)
    /\ NoDup keypoints
    /\ Forall (fun p => 3 <= fst p < Z.of_nat W - 3
                        /\ 3 <= snd p < Z.of_nat H - 3) keypoints
    /\ length orientations = length keypoints
    /\ length descriptors = length (filter (Pipeline.fits31 H W) keypoints)
    /\ Forall (fun d => length d = 256%nat /\ Forall is_bit d) descriptors.
Proof.
  intros Hr HH HW Hn.
  destruct (@gaussian_blur_int_shape UInt8 image H W 5 1%R Hr)
    as [smoothed [Hblur Hs]]; [lia | lia |].
  assert (HsR : rectangular (as_real (IntArr UInt8 smoothed)) H W)
    by (apply rectangular_map, Hs).
  set (candidates := detect_fast (IntArr UInt8 smoothed) 10).
  destruct (@HarrisProps.harris_detector_sublist
              (IntArr UInt8 smoothed) candidates default_k default_threshold
              H W HsR HH HW)
    as [keypoints [Hharris [Hincl [Hnodup _]]]].
  { apply HarrisProps.detect_fast_in_image. }
  { apply FastProps.detect_fast_NoDup. }
  assert (Hinterior : Forall (fun p => 3 <= fst p < Z.of_nat W - 3
                                        /\ 3 <= snd p < Z.of_nat H - 3)
                             keypoints).
  { apply Forall_forall. intros [x y] Hp. apply Hincl in Hp.
    unfold candidates, detect_fast in Hp.
    apply FastFacts.detect_fast_int32_In in Hp. destruct Hp as [Hy [Hx _]].
    rewrite FastProps.height_astype_int32 in Hy.
    rewrite FastProps.width_astype_int32 in Hx.
    rewrite (rectangular_width HsR) in Hx by lia.
    replace (height (as_real (IntArr UInt8 smoothed))) with H in Hy
      by (symmetry; apply HsR).
    cbn [fst snd]. lia. }
  exists keypoints,
         (map (orientation_value smoothed 31) keypoints),
         (map (fun p => descriptor_bits smoothed 31 random_points
                                        (fst p) (snd p))
              (filter (fun p => full_patch smoothed (fst (fst p))
                                           (snd (fst p)) 31)
                      (combine keypoints
                               (map (orientation_value smoothed 31)
                                    keypoints)))).
  split; [|split; [exact Hnodup | split; [exact Hinterior | split; [|split]]]].
  - unfold Pipeline.run. rewrite Hblur. fold candidates. rewrite Hharris.
    rewrite calculate_orientation_map by reflexivity.
    rewrite <- Hn.
    rewrite BriefProps.brief_descriptor_result by (cbv; discriminate).
    reflexivity.
  - apply length_map.
  - rewrite length_map.
    rewrite <- (length_map fst).
    rewrite (filter_combine_fst
               (fun kp => full_patch smoothed (fst kp) (snd kp) 31)
               keypoints (map (orientation_value smoothed 31) keypoints))
      by apply length_map.
    f_equal. apply filter_ext_in. intros p Hp.
    apply (@full_patch_fits31 smoothed H W p Hs); [lia|].
    rewrite Forall_forall in Hinterior. specialize (Hinterior p Hp).
    unfold pixel_coordinate. lia.
  - apply Forall_map, Forall_forall. intros p _. split.
    + now rewrite length_descriptor_bits.
    + apply BriefProps.descriptor_bits_are_bits.
Qed.

Lemma run_succeeds_witness :
  exists keypoints orientations descriptors,
    Pipeline.run mixed_polarity_image (repeat (0, 0) 256)
    = Some (keypoints, orientations, descriptors)
    /\ length orientations = length keypoints.
Proof.
  destruct (@run_succeeds mixed_polarity_image (repeat (0, 0) 256) 7 7)
    as [kps [os [ds [Hrun [_ [_ [Hlen _]]]]]]].
  - split; [reflexivity | repeat constructor].
  - lia.
  - lia.
  - apply repeat_length.
  - exists kps, os, ds. split; [exact Hrun | exact Hlen].
Defined.

(** X30.  Small images.  With fewer than two rows or two columns the
    script fails in the Harris stage (after smoothing and detection have
    succeeded); from 2x2 pixels on, but with fewer than 7 rows or 7
    columns, it returns no keypoint, no orientation and no descriptor. *)
Theorem run_small_image (image : grid Z) (random_points : list (Z * Z))
        (H W : nat) :
  rectangular image H W -> (1 <= H)%nat -> (1 <= W)%nat ->
  length random_points = 256%nat ->
  ((H < 2)%nat \/ (W < 2)%nat -> Pipeline.run image random_points = None)
  /\ ((2 <= H)%nat -> (2 <= W)%nat -> (H < 7)%nat \/ (W < 7)%nat ->
      Pipeline.run image random_points = Some ([], [], [])).
Proof.
  intros Hr HH HW Hn.
  destruct (@gaussian_blur_int_shape UInt8 image H W 5 1%R Hr HH HW)
    as [smoothed [Hblur Hs]].
  assert (HsR : rectangular (as_real (IntArr UInt8 smoothed)) H W)
    by (apply rectangular_map, Hs).
  assert (Hh : height (as_real (IntArr UInt8 smoothed)) = H) by apply HsR.
  assert (Hw : width (as_real (IntArr UInt8 smoothed)) = W)
    by (apply (rectangular_width HsR HH)).
  split.
  - intros Hsmall. unfold Pipeline.run. rewrite Hblur.
    rewrite HarrisProps.harris_needs_two_by_two_aux; [reflexivity|].
    rewrite Hh, Hw. exact Hsmall.
  - intros H2 W2 Hsmall.
    assert (Hnone : detect_fast (IntArr UInt8 smoothed) 10 = []).
    { apply FastProps.no_In_nil. intros [x y] Hin.
      unfold detect_fast in Hin.
      apply FastFacts.detect_fast_int32_In in Hin.
      destruct Hin as [Hy [Hx _]].
      rewrite FastProps.height_astype_int32, Hh in Hy.
      rewrite FastProps.width_astype_int32, Hw in Hx. lia. }
    destruct (@HarrisProps.harris_detector_sublist
                (IntArr UInt8 smoothed) [] default_k default_threshold
                H W HsR H2 W2 (Forall_nil _) (NoDup_nil _))
      as [kept [Hharris [Hincl _]]].
    assert (kept = []) by (destruct kept as [|p ?]; [reflexivity|];
                           destruct (Hincl p (or_introl eq_refl))).
    subst kept.
    unfold Pipeline.run. rewrite Hblur, Hnone, Hharris.
    cbn [calculate_orientation]. unfold brief_descriptor.
    change (31 / 2 <=? 0) with false. reflexivity.
Qed.

Lemma run_small_image_witness :
  Pipeline.run [[1; 2; 3]; [4; 5; 6]] (repeat (0, 0) 256) = Some ([], [], []).
Proof.
  destruct (@run_small_image [[1; 2; 3]; [4; 5; 6]] (repeat (0, 0) 256) 2 3)
    as [_ Hempty].
  - split; [reflexivity | repeat constructor].
  - lia.
  - lia.
  - apply repeat_length.
  - apply Hempty; lia.
Defined.

End PipelineProps.
